(** * nw3.py: the PubMed citation-graph server, embedded in Rocq

    The development follows [src/nw3.py] top to bottom: the Python values the
    code manipulates (strings, dicts, sets, JSON documents, ElementTree
    elements), the Entrez adapter [_get], the three fetchers
    [search_term_to_pmids], [get_article_summary_by_pmid] and
    [get_citations_of], and the [/api/graph] handler [api_graph]. *)

From Stdlib Require Import Bool Ascii String List ZArith QArith Lia Permutation.
From Stdlib Require Import DecimalString.
Import ListNotations.
Set Warnings "-register-all".
Local Open Scope string_scope.
Local Open Scope list_scope.
Local Open Scope nat_scope.

(** ** Python strings

    A [str] is modelled by [string], each character standing for one code
    point below 256. *)

(** [str.isspace] on one character: TAB..CR, FS..US, SPACE, NEL and NBSP. *)
Definition is_space (c : ascii) : bool :=
  let n := nat_of_ascii c in
  ((9 <=? n) && (n <=? 13)) || ((28 <=? n) && (n <=? 32))
  || (n =? 133) || (n =? 160).

(** The characters with the Unicode digit property below 256: 0-9 and the
    superscripts 2, 3 and 1. *)
Definition is_digit_char (c : ascii) : bool :=
  let n := nat_of_ascii c in
  ((48 <=? n) && (n <=? 57)) || (n =? 178) || (n =? 179) || (n =? 185).

Fixpoint all_chars (p : ascii -> bool) (s : string) : bool :=
  match s with
  | EmptyString => true
  | String c s' => p c && all_chars p s'
  end.

(** [s.isdigit()] *)
Definition isdigit (s : string) : bool :=
  match s with
  | EmptyString => false
  | String _ _ => all_chars is_digit_char s
  end.

(** Truth value of a [str]: [not s] is [negb (str_truthy s)]. *)
Definition str_truthy (s : string) : bool :=
  match s with
  | EmptyString => false
  | String _ _ => true
  end.

Fixpoint lstrip (s : string) : string :=
  match s with
  | EmptyString => EmptyString
  | String c s' => if is_space c then lstrip s' else s
  end.

Fixpoint rstrip (s : string) : string :=
  match s with
  | EmptyString => EmptyString
  | String c s' =>
      match rstrip s' with
      | EmptyString => if is_space c then EmptyString else String c EmptyString
      | String _ _ as r => String c r
      end
  end.

(** [s.strip()] *)
Definition strip (s : string) : string := rstrip (lstrip s).

(** [s[:n]] *)
Fixpoint slice_to (n : nat) (s : string) : string :=
  match n, s with
  | S n', String c s' => String c (slice_to n' s')
  | _, _ => EmptyString
  end.

(** Puts [c] in front of the first piece of a split. *)
Definition cons_head (c : ascii) (pieces : list string) : list string :=
  match pieces with
  | p :: ps => String c p :: ps
  | [] => [String c EmptyString]
  end.

(** [s.split(sep)] for a one-character separator. *)
Fixpoint split_on (sep : ascii) (s : string) : list string :=
  match s with
  | EmptyString => [EmptyString]
  | String c s' =>
      if Ascii.eqb c sep then EmptyString :: split_on sep s'
      else cons_head c (split_on sep s')
  end.

(** [s.split('->')]: pieces between the non-overlapping occurrences of the
    arrow, scanned from the left. *)
Fixpoint split_arrow (s : string) : list string :=
  match s with
  | EmptyString => [EmptyString]
  | String c s1 =>
      match s1 with
      | EmptyString => [String c EmptyString]
      | String c2 s2 =>
          if Ascii.eqb c "-" && Ascii.eqb c2 ">"
          then EmptyString :: split_arrow s2
          else cons_head c (split_arrow s1)
      end
  end.

(** [sep.join(parts)] *)
Fixpoint join (sep : string) (parts : list string) : string :=
  match parts with
  | [] => EmptyString
  | [p] => p
  | p :: ps => (p ++ sep ++ join sep ps)%string
  end.

(** [x in l] for a list of strings. *)
Definition str_in (x : string) (l : list string) : bool :=
  existsb (String.eqb x) l.

(** ** Python dicts and sets

    A [dict] keeps its keys in insertion order, so it is an association list
    with pairwise distinct keys; assigning to a present key replaces the value
    in place. *)

Section Dict.
Context {V : Type}.

Definition dict := list (string * V).

Fixpoint dict_get (k : string) (d : dict) : option V :=
  match d with
  | [] => None
  | (k', v) :: d' => if String.eqb k k' then Some v else dict_get k d'
  end.

(** [k in d] *)
Definition dict_mem (k : string) (d : dict) : bool :=
  match dict_get k d with Some _ => true | None => false end.

(** [d[k] = v] *)
Fixpoint dict_set (k : string) (v : V) (d : dict) : dict :=
  match d with
  | [] => [(k, v)]
  | (k', v') :: d' =>
      if String.eqb k k' then (k, v) :: d' else (k', v') :: dict_set k v d'
  end.

(** In-place mutation of the value stored under [k]. *)
Fixpoint dict_update (k : string) (f : V -> V) (d : dict) : dict :=
  match d with
  | [] => []
  | (k', v) :: d' =>
      if String.eqb k k' then (k', f v) :: d' else (k', v) :: dict_update k f d'
  end.

Definition dict_keys (d : dict) : list string := map fst d.
Definition dict_values (d : dict) : list V := map snd d.
End Dict.
Arguments dict V : clear implicits.

(** A [set] of strings: its elements, without repetition, in the order they
    were first added.  The order in which CPython iterates over a set depends
    on the string hashes, which change from one process to the next; it is a
    parameter of the model (see [order] below). *)
Definition pyset := list string.

Definition set_add (x : string) (s : pyset) : pyset :=
  if str_in x s then s else s ++ [x].

(** [set(l)] *)
Definition set_of_list (l : list string) : pyset :=
  fold_left (fun s x => set_add x s) l [].

(** ** Exceptions

    A computation that may raise.  Every handler in [nw3.py] catches all
    exceptions alike, so the exception carries no payload. *)

Inductive exc (A : Type) : Type :=
| Ok (v : A)
| Raise.
Arguments Ok {A} v.
Arguments Raise {A}.

Definition bind {A B : Type} (m : exc A) (f : A -> exc B) : exc B :=
  match m with
  | Ok v => f v
  | Raise => Raise
  end.

Notation "x <- m ;; k" := (bind m (fun x => k))
  (at level 61, m at next level, right associativity).

(** [try: return m  except Exception: return handler] *)
Definition try_except {A : Type} (m : exc A) (handler : A) : A :=
  match m with
  | Ok v => v
  | Raise => handler
  end.

(** ** JSON documents, as [r.json()] returns them *)

Inductive json : Type :=
| JNull
| JBool (b : bool)
| JInt (z : Z)
| JFloat (nonzero : bool)   (* a float; the code only observes whether it is zero *)
| JStr (s : string)
| JArr (items : list json)
| JObj (members : dict json).

(** Truth value of a Python object, as [x or y] tests it. *)
Definition py_truthy (j : json) : bool :=
  match j with
  | JNull => false
  | JBool b => b
  | JInt z => negb (Z.eqb z 0)
  | JFloat nonzero => nonzero
  | JStr s => str_truthy s
  | JArr items => match items with [] => false | _ :: _ => true end
  | JObj members => match members with [] => false | _ :: _ => true end
  end.

(** [j.get(key, default)]: only a dict has the method. *)
Definition json_get (j : json) (key : string) (default : json) : exc json :=
  match j with
  | JObj members =>
      match dict_get key members with
      | Some v => Ok v
      | None => Ok default
      end
  | _ => Raise
  end.

Fixpoint chars (s : string) : list string :=
  match s with
  | EmptyString => []
  | String c s' => String c EmptyString :: chars s'
  end.

(** [for x in j]: a list yields its items, a dict its keys, a string its
    characters; anything else is not iterable. *)
Definition py_iter (j : json) : exc (list json) :=
  match j with
  | JArr items => Ok items
  | JObj members => Ok (map JStr (dict_keys members))
  | JStr s => Ok (map JStr (chars s))
  | _ => Raise
  end.

(** [(res.get(key) or '').strip()] *)
Definition str_field (res : json) (key : string) : exc string :=
  v <- json_get res key JNull ;;
  if py_truthy v then
    match v with
    | JStr s => Ok (strip s)
    | _ => Raise
    end
  else Ok (strip EmptyString).

(** ** ElementTree elements, as [ET.fromstring] returns them *)

Inductive element : Type :=
| Element (tag : string) (attrib : dict string)
          (text : option string) (tail : option string)
          (children : list element).

Definition el_tag (e : element) : string :=
  match e with Element tag _ _ _ _ => tag end.
Definition el_attrib (e : element) : dict string :=
  match e with Element _ attrib _ _ _ => attrib end.
Definition el_text (e : element) : option string :=
  match e with Element _ _ text _ _ => text end.
Definition el_tail (e : element) : option string :=
  match e with Element _ _ _ tail _ => tail end.
Definition el_children (e : element) : list element :=
  match e with Element _ _ _ _ children => children end.

(** Truth value of an element: ElementTree defines it as [len(e) != 0], so
    an element without sub-elements is false whatever its text. *)
Definition el_truthy (e : element) : bool :=
  match el_children e with
  | [] => false
  | _ :: _ => true
  end.

(** The sub-elements on all levels beneath [e], in document order. *)
Fixpoint descendants (e : element) : list element :=
  match e with
  | Element _ _ _ _ children =>
      (fix go (l : list element) : list element :=
         match l with
         | [] => []
         | c :: l' => c :: descendants c ++ go l'
         end) children
  end.

Definition has_tag (tag : string) (e : element) : bool :=
  String.eqb (el_tag e) tag.

(** [e.findall(".//tag")] and [e.find(".//tag")] *)
Definition findall_desc (tag : string) (e : element) : list element :=
  filter (has_tag tag) (descendants e).
Definition find_desc (tag : string) (e : element) : option element :=
  hd_error (findall_desc tag e).

(** [e.findall("tag")] and [e.find("tag")]: direct children only. *)
Definition findall_child (tag : string) (e : element) : list element :=
  filter (has_tag tag) (el_children e).
Definition find_child (tag : string) (e : element) : option element :=
  hd_error (findall_child tag e).

Definition text_piece (t : option string) : list string :=
  match t with
  | Some s => if str_truthy s then [s] else []
  | None => []
  end.

(** [e.itertext()]: the text of [e], then for each child its inner text
    followed by its tail. *)
Fixpoint itertext (e : element) : list string :=
  match e with
  | Element _ _ text _ children =>
      text_piece text ++
      (fix go (l : list element) : list string :=
         match l with
         | [] => []
         | c :: l' => itertext c ++ text_piece (el_tail c) ++ go l'
         end) children
  end.

(** [''.join(e.itertext()).strip()] *)
Definition inner_text (e : element) : string :=
  strip (join EmptyString (itertext e)).

(** [.text.strip()]: raises when the element has no text. *)
Definition text_strip (e : element) : exc string :=
  match el_text e with
  | Some s => Ok (strip s)
  | None => Raise
  end.

(** ** The Entrez adapter *)

(** A query-parameter value: a string or an integer. *)
Inductive pval : Type :=
| PStr (s : string)
| PInt (z : Z).

(** What the body of a response parses to: [r.json()] succeeds on a JSON
    text, [ET.fromstring(r.text)] on an XML text, and neither on the rest. *)
Inductive payload : Type :=
| Malformed
| JsonDoc (j : json)
| XmlDoc (root : element).

Record response : Type := { status_code : Z; content : payload }.

(** The outcome of [SESSION.get]: an exception (connection error, timeout)
    or a response. *)
Inductive reply : Type :=
| TransportError
| Reply (r : response).

(** What [_get] does to the outside world. *)
Inductive event : Type :=
| Request (url : string) (params : dict pval)
| Sleep (seconds : Q).

Definition ENTREZ_BASE : string :=
  "https://eutils.ncbi.nlm.nih.gov/entrez/eutils".

Definition DELAY : Q := 35 # 100.

(** [r.raise_for_status()] *)
Definition raise_for_status (r : response) : exc unit :=
  if ((400 <=? status_code r) && (status_code r <? 600))%Z then Raise else Ok tt.

(** [r.json()] *)
Definition response_json (r : response) : exc json :=
  match content r with
  | JsonDoc j => Ok j
  | _ => Raise
  end.

(** [ET.fromstring(r.text)] *)
Definition fromstring (r : response) : exc element :=
  match content r with
  | XmlDoc root => Ok root
  | _ => Raise
  end.

(** The record [get_article_summary_by_pmid] returns. *)
Record qualifier : Type :=
  { q_name : string; q_id : option string; q_major : bool }.

Record mesh_heading : Type :=
  { descriptor : string;
    descriptor_id : option string;
    major : bool;
    qualifiers : list qualifier }.

Record article : Type :=
  { meta_pmid : string;
    meta_title : string;
    meta_abstract : string;
    meta_journal : string;
    meta_pubdate : string;
    meta_mesh : list mesh_heading }.

(** [e.attrib.get(key) == "Y"] *)
Definition attrib_is_Y (e : element) (key : string) : bool :=
  match dict_get key (el_attrib e) with
  | Some v => String.eqb v "Y"
  | None => false
  end.

Definition newline : string := String (ascii_of_nat 10) EmptyString.

Section Server.

(** The environment: the API key, the remote service (a deterministic
    function of the request), Python's [str] and [int] builtins, and the
    order in which a set is iterated. *)
Variable API_KEY : option string.
Variable upstream : string -> dict pval -> reply.
Variable py_str : json -> string.
Variable py_int : string -> option Z.
Variable order : pyset -> list string.

(** Lines 21-23: the parameters sent, and the address they are sent to. *)
Definition with_api_key (params : dict pval) : dict pval :=
  match API_KEY with
  | Some key =>
      if str_truthy key then dict_set "api_key" (PStr key) params else params
  | None => params
  end.

Definition endpoint_url (endpoint : string) : string :=
  (ENTREZ_BASE ++ "/" ++ endpoint ++ ".fcgi")%string.

(** [_get]: the result (a response, or the exception raised) and the trace
    of events, oldest first. *)
Definition _get (endpoint : string) (params : dict pval)
  : exc response * list event :=
  let params := with_api_key params in
  let url := endpoint_url endpoint in
  match upstream url params with
  | TransportError => (Raise, [Request url params])
  | Reply r =>
      match raise_for_status r with
      | Raise => (Raise, [Request url params])
      | Ok _ => (Ok r, [Request url params; Sleep DELAY])
      end
  end.

(** The value of a call to [_get], as its callers use it. *)
Definition fetch (endpoint : string) (params : dict pval) : exc response :=
  fst (_get endpoint params).

(** *** search_term_to_pmids *)

Definition esearch_params (term : string) (retmax : Z) : dict pval :=
  [("db", PStr "pubmed"); ("term", PStr term); ("retmode", PStr "json");
   ("retmax", PInt retmax)].

(** The body of the [try] block. *)
Definition search_body (term : string) (retmax : Z) : exc (list string) :=
  r <- fetch "esearch" (esearch_params term retmax) ;;
  j <- response_json r ;;
  res <- json_get j "esearchresult" (JObj []) ;;
  ids <- json_get res "idlist" (JArr []) ;;
  xs <- py_iter ids ;;
  Ok (map py_str xs).

Definition search_term_to_pmids (term : string) (retmax : Z) : list string :=
  if negb (str_truthy term) then []
  else try_except (search_body term retmax) [].

(** *** get_article_summary_by_pmid *)

Definition esummary_params (pmid : string) : dict pval :=
  [("db", PStr "pubmed"); ("id", PStr pmid); ("retmode", PStr "json")].

Definition efetch_params (pmid : string) : dict pval :=
  [("db", PStr "pubmed"); ("id", PStr pmid); ("retmode", PStr "xml")].

(** The first [try] block: the values of [title], [journal] and [pubdate]
    when it is left, normally or by an exception. *)
Definition summary_block (pmid : string) : string * string * string :=
  match (r <- fetch "esummary" (esummary_params pmid) ;;
         j <- response_json r ;;
         result <- json_get j "result" (JObj []) ;;
         json_get result pmid (JObj [])) with
  | Raise => (EmptyString, EmptyString, EmptyString)
  | Ok res =>
      match str_field res "title" with
      | Raise => (EmptyString, EmptyString, EmptyString)
      | Ok title =>
          match str_field res "fulljournalname" with
          | Raise => (title, EmptyString, EmptyString)
          | Ok journal =>
              match str_field res "pubdate" with
              | Raise => (title, journal, EmptyString)
              | Ok pubdate => (title, journal, pubdate)
              end
          end
      end
  end.

(** [root.find(".//ArticleTitle") or root.find(".//Title")] *)
Definition art_title_el (root : element) : option element :=
  match find_desc "ArticleTitle" root with
  | Some e => if el_truthy e then Some e else find_desc "Title" root
  | None => find_desc "Title" root
  end.

(** Lines 61-66: the title after the XML fallback. *)
Definition xml_title (root : element) (title : string) : string :=
  if negb (str_truthy title) then
    match art_title_el root with
    | Some e => let t := inner_text e in if str_truthy t then t else title
    | None => title
    end
  else title.

Definition has_text (e : element) : bool :=
  match el_text e with
  | Some s => str_truthy s
  | None => false
  end.

Definition text_or_empty (e : element) : string :=
  match el_text e with
  | Some s => s
  | None => EmptyString
  end.

(** Lines 67-73: the abstract. *)
Definition xml_abstract (root : element) (abstract : string) : string :=
  let abs_parts :=
    map (fun a => strip (text_or_empty a))
        (filter has_text (findall_desc "AbstractText" root)) in
  match abs_parts with
  | _ :: _ => join (newline ++ newline)%string abs_parts
  | [] =>
      match find_desc "Abstract" root with
      | Some abs_el => inner_text abs_el
      | None => abstract
      end
  end.

Fixpoint qualifier_loop (qs : list element) : exc (list qualifier) :=
  match qs with
  | [] => Ok []
  | q :: rest =>
      name <- text_strip q ;;
      more <- qualifier_loop rest ;;
      Ok ({| q_name := name;
             q_id := dict_get "UI" (el_attrib q);
             q_major := attrib_is_Y q "MajorTopicYN" |} :: more)
  end.

Definition mesh_entry (mh d : element) : exc mesh_heading :=
  desc_name <- text_strip d ;;
  quals <- qualifier_loop (findall_child "QualifierName" mh) ;;
  Ok {| descriptor := desc_name;
        descriptor_id := dict_get "UI" (el_attrib d);
        major := attrib_is_Y d "MajorTopicYN";
        qualifiers := quals |}.

(** Lines 75-93: [mesh_data] when the loop is left, at its end or by the
    exception of a heading whose descriptor or qualifier has no text. *)
Fixpoint mesh_loop (mhs : list element) (mesh_data : list mesh_heading)
  : list mesh_heading :=
  match mhs with
  | [] => mesh_data
  | mh :: rest =>
      match find_child "DescriptorName" mh with
      | None => mesh_loop rest mesh_data
      | Some d =>
          match mesh_entry mh d with
          | Ok h => mesh_loop rest (mesh_data ++ [h])
          | Raise => mesh_data
          end
      end
  end.

(** The second [try] block: [title], [abstract] and [mesh_data] when it is
    left. *)
Definition efetch_block (pmid title : string)
  : string * string * list mesh_heading :=
  match (r2 <- fetch "efetch" (efetch_params pmid) ;; fromstring r2) with
  | Raise => (title, EmptyString, [])
  | Ok root =>
      (xml_title root title,
       xml_abstract root EmptyString,
       mesh_loop (findall_desc "MeshHeading" root) [])
  end.

(** The title when line 97 is reached. *)
Definition resolved_title (pmid : string) : string :=
  let '(title, _, _) := summary_block pmid in
  let '(title, _, _) := efetch_block pmid title in
  title.

(** Lines 97-101. *)
Definition final_title (pmid title : string) : string :=
  if negb (str_truthy title) then ("(Untitled article, PMID " ++ pmid ++ ")")%string
  else if 800 <? String.length title then (rstrip (slice_to 200 title) ++ "...")%string
  else title.

Definition get_article_summary_by_pmid (pmid : string) : article :=
  let '(title, journal, pubdate) := summary_block pmid in
  let '(title, abstract, mesh_data) := efetch_block pmid title in
  let title := final_title pmid title in
  let abstract :=
    if negb (str_truthy abstract) then "(No abstract available.)"
    else abstract in
  {| meta_pmid := pmid;
     meta_title := title;
     meta_abstract := abstract;
     meta_journal := journal;
     meta_pubdate := pubdate;
     meta_mesh := mesh_data |}.

(** *** get_citations_of *)

Definition elink_params (pmid linkname : string) : dict pval :=
  [("dbfrom", PStr "pubmed"); ("db", PStr "pubmed"); ("id", PStr pmid);
   ("linkname", PStr linkname); ("retmode", PStr "json")].

(** The inner loop of lines 123-124 over one link set. *)
Fixpoint linksetdb_loop (lns : list json) : exc (list string) :=
  match lns with
  | [] => Ok []
  | ln :: rest =>
      links <- json_get ln "links" (JArr []) ;;
      xs <- py_iter links ;;
      more <- linksetdb_loop rest ;;
      Ok (map py_str xs ++ more)
  end.

(** Lines 122-124: the flattened response [out]. *)
Fixpoint linksets_loop (lss : list json) : exc (list string) :=
  match lss with
  | [] => Ok []
  | ls :: rest =>
      dbs <- json_get ls "linksetdb" (JArr []) ;;
      lns <- py_iter dbs ;;
      here <- linksetdb_loop lns ;;
      more <- linksets_loop rest ;;
      Ok (here ++ more)
  end.

(** Lines 126-131: [seen] when the loop is left. *)
Fixpoint seen_loop (out seen : list string) (limit : Z) : list string :=
  match out with
  | [] => seen
  | i :: out' =>
      let seen := if negb (str_in i seen) then seen ++ [i] else seen in
      if (limit <=? Z.of_nat (List.length seen))%Z then seen
      else seen_loop out' seen limit
  end.

Definition linkname_of (direction : string) : string :=
  if String.eqb direction "refs" then "pubmed_pubmed_refs"
  else "pubmed_pubmed_citedin".

(** The flattened upstream response of lines 119-124. *)
Definition citations_out (pmid direction : string) : exc (list string) :=
  r <- fetch "elink" (elink_params pmid (linkname_of direction)) ;;
  j <- response_json r ;;
  sets <- json_get j "linksets" (JArr []) ;;
  lss <- py_iter sets ;;
  linksets_loop lss.

Definition get_citations_of (pmid direction : string) (limit : Z)
  : list string :=
  if negb (str_truthy pmid) then []
  else try_except (out <- citations_out pmid direction ;;
                   Ok (seen_loop out [] limit)) [].

(** ** api_graph *)

(** A node and a link of the JSON answer. *)
Record node : Type :=
  { n_id : string;
    n_name : string;
    n_title_full : string;
    n_abstract : string;
    n_journal : string;
    n_pubdate : string;
    n_mesh : list string;
    n_mesh_detail : list mesh_heading;
    n_val : Z;
    n_color : string;
    n_seedGroup : string;
    n_seedGroups : list string;
    n_shared : bool }.

Record link : Type :=
  { l_source : string;
    l_target : string;
    l_color : string;
    l_semantic : bool }.

(** The two accumulators of the handler. *)
Record graph_state : Type :=
  { all_nodes : dict node;
    all_links : pyset }.

(** The answer: a JSON body and a status code. *)
Inductive body : Type :=
| ErrorBody (error : string)
| GraphBody (nodes : list node) (links : list link).

Definition edge_key (a b : string) : string := (a ++ "->" ++ b)%string.

Definition palette : list string :=
  ["#00bcd4"; "#ff9800"; "#8bc34a"; "#e91e63";
   "#9c27b0"; "#ff5722"; "#03a9f4"; "#cddc39"].

Definition shared_color : string := "#ffffff".

(** Lines 183-186: the node of an identifier met again. *)
Definition mark_shared (seed : string) (n : node) : node :=
  {| n_id := n_id n;
     n_name := n_name n;
     n_title_full := n_title_full n;
     n_abstract := n_abstract n;
     n_journal := n_journal n;
     n_pubdate := n_pubdate n;
     n_mesh := n_mesh n;
     n_mesh_detail := n_mesh_detail n;
     n_val := n_val n;
     n_color := shared_color;
     n_seedGroup := n_seedGroup n;
     n_seedGroups :=
       if negb (str_in seed (n_seedGroups n)) then n_seedGroups n ++ [seed]
       else n_seedGroups n;
     n_shared := true |}.

(** Lines 188-204: the node of a new identifier. *)
Definition new_node (s_index : nat) (seed pmid : string) : node :=
  let meta := get_article_summary_by_pmid pmid in
  {| n_id := pmid;
     n_name := meta_title meta;
     n_title_full := meta_title meta;
     n_abstract := meta_abstract meta;
     n_journal := meta_journal meta;
     n_pubdate := meta_pubdate meta;
     n_mesh := map descriptor (meta_mesh meta);
     n_mesh_detail := meta_mesh meta;
     n_val := 12;
     n_color := nth (s_index mod 8) palette EmptyString;
     n_seedGroup := seed;
     n_seedGroups := [seed];
     n_shared := false |}.

(** Lines 181-205: one turn of the metadata loop. *)
Definition node_step (s_index : nat) (seed : string)
  (nodes : dict node) (pmid : string) : dict node :=
  if dict_mem pmid nodes then dict_update pmid (mark_shared seed) nodes
  else dict_set pmid (new_node s_index seed pmid) nodes.

(** Lines 215-217: edges between neighbours of [local_list]. *)
Fixpoint chain_edges (local_list : list string) (links : pyset) : pyset :=
  match local_list with
  | a :: (b :: _) as rest => chain_edges rest (set_add (edge_key a b) links)
  | _ => links
  end.

(** Lines 235-239: do both nodes carry MeSH terms, one of them in common? *)
Definition semantic_pair (src tgt : node) : bool :=
  match n_mesh src, n_mesh tgt with
  | _ :: _, _ :: _ => existsb (fun m => str_in m (n_mesh tgt)) (n_mesh src)
  | _, _ => false
  end.

(** Lines 224-245: the links appended for one edge key.  A key that does not
    split in two is skipped, and so is one with an endpoint unknown to
    [node_map] (a node, being a non-empty dict, is always true). *)
Definition link_of_edge (node_map : dict node) (edge : string) : list link :=
  match split_arrow edge with
  | [a; b] =>
      match dict_get a node_map, dict_get b node_map with
      | Some src, Some tgt =>
          let semantic := semantic_pair src tgt in
          [{| l_source := a;
              l_target := b;
              l_color := if semantic then "#66bb6a" else "#cccccc";
              l_semantic := semantic |}]
      | _, _ => []
      end
  | _ => []
  end.

(** [{n['id']: n for n in nodes}] *)
Definition node_map_of (nodes : list node) : dict node :=
  fold_left (fun m n => dict_set (n_id n) n m) nodes [].

Section Build.

Variables limit connector_limit : Z.

(** Lines 165-168. *)
Definition resolve_seed (seed : string) : list string :=
  if isdigit seed then [seed] else search_term_to_pmids seed limit.

(** Lines 172-177: the working set of a seed. *)
Definition add_refs (local_pmids : pyset) (p : string) : pyset :=
  fold_left (fun s r => set_add r s)
            (get_citations_of p "refs" connector_limit) local_pmids.

Definition local_pmids_of (pmids : list string) : pyset :=
  fold_left add_refs pmids (set_of_list pmids).

(** Lines 208-211. *)
Definition add_citations (links : pyset) (a : string) : pyset :=
  fold_left (fun ls b => set_add (edge_key a b) ls)
            (get_citations_of a "refs" connector_limit) links.

Definition citation_edges (pmids : list string) (links : pyset) : pyset :=
  fold_left add_citations pmids links.

(** The body of the loop over the seeds. *)
Definition seed_body (s_index : nat) (seed : string) (st : graph_state)
  : graph_state :=
  let pmids := resolve_seed seed in
  match pmids with
  | [] => st
  | _ :: _ =>
      let local_pmids := local_pmids_of pmids in
      let nodes :=
        fold_left (node_step s_index seed) (order local_pmids) (all_nodes st) in
      let links := citation_edges pmids (all_links st) in
      let local_list := order local_pmids in
      {| all_nodes := nodes; all_links := chain_edges local_list links |}
  end.

(** [for s_index, seed in enumerate(seeds)], from index [s_index] on. *)
Fixpoint seed_loop (s_index : nat) (seeds : list string) (st : graph_state)
  : graph_state :=
  match seeds with
  | [] => st
  | seed :: rest => seed_loop (S s_index) rest (seed_body s_index seed st)
  end.

Definition empty_state : graph_state := {| all_nodes := []; all_links := [] |}.

(** The state after the loop over [seeds]. *)
Definition build_state (seeds : list string) : graph_state :=
  seed_loop 0 seeds empty_state.

(** Lines 220-245. *)
Definition nodes_of (st : graph_state) : list node := dict_values (all_nodes st).

Definition links_of (st : graph_state) : list link :=
  flat_map (link_of_edge (node_map_of (nodes_of st))) (order (all_links st)).

(** Lines 157-245: the graph of a non-empty list of seeds. *)
Definition build_graph (seeds : list string) : list node * list link :=
  let st := build_state seeds in (nodes_of st, links_of st).

End Build.

(** Lines 144-145: the seeds of the query string. *)
Definition parse_seeds (seeds_raw : string) : list string :=
  map strip (filter (fun s => str_truthy (strip s)) (split_on "," seeds_raw)).

(** Lines 148-155: an integer argument; [int(20)] when it is missing, 20
    again when [int] raises. *)
Definition int_arg (args : dict string) (name : string) : Z :=
  match dict_get name args with
  | None => 20%Z
  | Some s =>
      match py_int s with
      | Some z => z
      | None => 20%Z
      end
  end.

Definition api_graph (args : dict string) : body * Z :=
  let seeds_raw :=
    match dict_get "seeds" args with
    | Some s => s
    | None => EmptyString
    end in
  let seeds := parse_seeds seeds_raw in
  match seeds with
  | [] => (ErrorBody "no seeds provided", 400%Z)
  | _ :: _ =>
      let limit := int_arg args "limit" in
      let connector_limit := int_arg args "connector_limit" in
      let '(nodes, links) := build_graph limit connector_limit seeds in
      (GraphBody nodes links, 200%Z)
  end.

End Server.

(** ** Specification vocabulary *)

(** A set is iterated over its elements, each once, in some order. *)
Definition set_iteration (order : pyset -> list string) : Prop :=
  forall s : pyset, NoDup s -> Permutation s (order s).

(** What every entry of [all_nodes] satisfies: it is filed under its id, its
    name is its full title, its value is 12, and its seed groups start with
    its seed group and do not repeat. *)
Definition node_ok (k : string) (n : node) : Prop :=
  n_id n = k /\
  n_name n = n_title_full n /\
  n_val n = 12%Z /\
  hd_error (n_seedGroups n) = Some (n_seedGroup n) /\
  NoDup (n_seedGroups n).

Definition nodes_ok (d : dict node) : Prop :=
  NoDup (dict_keys d) /\ forall k n, In (k, n) d -> node_ok k n.

(** The ordered pair of a link. *)
Definition endpoints (l : link) : string * string := (l_source l, l_target l).

(** An identifier is discovered under a seed when it is in the working set
    of that seed: one of the seed's primary identifiers or one of their
    references. *)
Definition discovered (API_KEY : option string)
  (upstream : string -> dict pval -> reply) (py_str : json -> string)
  (limit connector_limit : Z) (seed d : string) : Prop :=
  In d (local_pmids_of API_KEY upstream py_str connector_limit
          (resolve_seed API_KEY upstream py_str limit seed)).

(** [P] holds of the node filed under [d]. *)
Definition holds_at (d : string) (P : node -> Prop) (nodes : dict node) : Prop :=
  exists n, dict_get d nodes = Some n /\ P n.

(** A property of a node that meeting it again does not undo. *)
Definition stable (P : node -> Prop) : Prop :=
  forall seed n, P n -> P (mark_shared seed n).

(** The metadata loop of one seed in closed form: the entries already
    present, those met in [l] marked shared, followed by a new entry for
    each identifier of [l] not yet present. *)
Definition touch (seed : string) (l : list string) (kv : string * node)
  : string * node :=
  if str_in (fst kv) l then (fst kv, mark_shared seed (snd kv)) else kv.

Definition fresh (API_KEY : option string)
  (upstream : string -> dict pval -> reply) (s_index : nat) (seed : string)
  (nodes : dict node) (l : list string) : dict node :=
  map (fun x => (x, new_node API_KEY upstream s_index seed x))
      (filter (fun x => negb (dict_mem x nodes)) l).

(** An upstream outcome from which no JSON document, respectively no XML
    document, is obtained: a transport error, an HTTP error status, or a
    body that does not parse. *)
Definition json_failure (rp : reply) : Prop :=
  match rp with
  | TransportError => True
  | Reply r =>
      (400 <= status_code r < 600)%Z \/ forall j, content r <> JsonDoc j
  end.

Definition xml_failure (rp : reply) : Prop :=
  match rp with
  | TransportError => True
  | Reply r =>
      (400 <= status_code r < 600)%Z \/ forall root, content r <> XmlDoc root
  end.

(** The record returned for an article about which nothing was obtained. *)
Definition default_article (pmid : string) : article :=
  {| meta_pmid := pmid;
     meta_title := ("(Untitled article, PMID " ++ pmid ++ ")")%string;
     meta_abstract := "(No abstract available.)";
     meta_journal := EmptyString;
     meta_pubdate := EmptyString;
     meta_mesh := [] |}.

(** ** Stub data sources for the examples *)

(** [str] as the examples need it: exact on strings, integers, booleans and
    [None], the only values the example documents hold. *)
Definition str_scalar (j : json) : string :=
  match j with
  | JStr s => s
  | JInt z => NilZero.string_of_int (Z.to_int z)
  | JBool true => "True"
  | JBool false => "False"
  | JNull => "None"
  | _ => EmptyString
  end.

Definition ok_json (j : json) : reply :=
  Reply {| status_code := 200; content := JsonDoc j |}.

Definition ok_xml (root : element) : reply :=
  Reply {| status_code := 200; content := XmlDoc root |}.

(** The [esearch] answer listing [ids]. *)
Definition esearch_doc (ids : list string) : json :=
  JObj [("esearchresult", JObj [("idlist", JArr (map JStr ids))])].

(** The [elink] answer with one link set listing [ids]. *)
Definition elink_doc (ids : list string) : json :=
  JObj [("linksets", JArr [JObj [("linksetdb", JArr [JObj [("links", JArr (map JStr ids))]])]])].

(** A source that is down. *)
Definition stub_down (url : string) (params : dict pval) : reply :=
  TransportError.

(** A source whose search finds [ids] for every term, and nothing else. *)
Definition stub_search (ids : list string) (url : string) (params : dict pval)
  : reply :=
  if String.eqb url "https://eutils.ncbi.nlm.nih.gov/entrez/eutils/esearch.fcgi"
  then ok_json (esearch_doc ids)
  else TransportError.

(** A source that only answers [elink], always with the links [ids]. *)
Definition stub_links (ids : list string) (url : string) (params : dict pval)
  : reply :=
  if String.eqb url "https://eutils.ncbi.nlm.nih.gov/entrez/eutils/elink.fcgi"
  then ok_json (elink_doc ids)
  else TransportError.

(** The [esummary] answer giving [title] for [pmid]. *)
Definition esummary_doc (pmid title : string) : json :=
  JObj [("result", JObj [(pmid, JObj [("title", JStr title)])])].

(** A source that only answers [esummary], with [title] for [pmid]. *)
Definition stub_summary (pmid title : string) (url : string)
  (params : dict pval) : reply :=
  if String.eqb url "https://eutils.ncbi.nlm.nih.gov/entrez/eutils/esummary.fcgi"
  then ok_json (esummary_doc pmid title)
  else TransportError.

(** A source that only answers [efetch], with the document [root]. *)
Definition stub_efetch (root : element) (url : string) (params : dict pval)
  : reply :=
  if String.eqb url "https://eutils.ncbi.nlm.nih.gov/entrez/eutils/efetch.fcgi"
  then ok_xml root
  else TransportError.

(** A source that answers every request with HTTP status [code]. *)
Definition stub_status (code : Z) (url : string) (params : dict pval) : reply :=
  Reply {| status_code := code; content := JsonDoc (JObj []) |}.

(** [<tag>text</tag>] *)
Definition leaf (tag text : string) : element :=
  Element tag [] (Some text) None [].

(** An article whose title is plain text, in a journal. *)
Definition xml_with_journal : element :=
  Element "Article" [] None None
    [Element "Journal" [] None None [leaf "Title" "Some Journal"];
     leaf "ArticleTitle" "Foo"].

(** The same article without the journal. *)
Definition xml_title_only : element :=
  Element "Article" [] None None [leaf "ArticleTitle" "Foo"].

Fixpoint repeat_char (c : ascii) (n : nat) : string :=
  match n with
  | O => EmptyString
  | S n' => String c (repeat_char c n')
  end.

(** A title of 900 characters whose 200th character is a space. *)
Definition title_900_space : string :=
  (repeat_char "a" 199 ++ " " ++ repeat_char "b" 700)%string.

(** A title of 900 letters. *)
Definition title_900 : string := repeat_char "a" 900.

Fixpoint digits_value (s : string) (acc : Z) : option Z :=
  match s with
  | EmptyString => Some acc
  | String c s' =>
      let n := nat_of_ascii c in
      if (48 <=? n) && (n <=? 57)
      then digits_value s' (10 * acc + Z.of_nat (n - 48))%Z
      else None
  end.

(** [int] as the examples need it: the value of a string of decimal digits,
    and an exception on a string with any other character. *)
Definition int_digits (s : string) : option Z :=
  match s with
  | EmptyString => None
  | String _ _ => digits_value s 0%Z
  end.

(** Sets iterated in insertion order, and in the reverse order. *)
Definition insertion_order (s : pyset) : list string := s.
Definition reverse_order (s : pyset) : list string := rev s.

(** ** Vocabulary of the further properties *)

(** The character [c] does not occur in [s]. *)
Definition lacks (c : ascii) (s : string) : Prop :=
  all_chars (fun x => negb (Ascii.eqb x c)) s = true.

(** A seed as [parse_seeds] yields it: not empty, without white space at
    either end, without comma. *)
Definition clean_seed (s : string) : Prop :=
  s <> EmptyString /\ strip s = s /\ lacks "," s.

(** [x] is immediately followed by [y] in [l]. *)
Definition adjacent (x y : string) (l : list string) : Prop :=
  exists l1 l2, l = l1 ++ x :: y :: l2.

(** What one seed does to the entry of an identifier of its working set. *)
Definition meet (API_KEY : option string)
  (upstream : string -> dict pval -> reply) (s_index : nat) (seed d : string)
  (entry : option node) : option node :=
  Some (match entry with
        | Some n => mark_shared seed n
        | None => new_node API_KEY upstream s_index seed d
        end).

(** The entry of [d] after the seeds [seeds], numbered from [s_index]. *)
Fixpoint entry_after (API_KEY : option string)
  (upstream : string -> dict pval -> reply) (py_str : json -> string)
  (limit connector_limit : Z) (d : string) (s_index : nat)
  (seeds : list string) (entry : option node) : option node :=
  match seeds with
  | [] => entry
  | seed :: rest =>
      entry_after API_KEY upstream py_str limit connector_limit d
        (S s_index) rest
        (if str_in d (local_pmids_of API_KEY upstream py_str connector_limit
                        (resolve_seed API_KEY upstream py_str limit seed))
         then meet API_KEY upstream s_index seed d entry
         else entry)
  end.

(** A node met again under each of the seeds [later], in turn. *)
Definition marks (later : list string) (n : node) : node :=
  fold_left (fun n seed => mark_shared seed n) later n.

(** The seeds of [seeds] under which [d] is discovered. *)
Definition discovering (API_KEY : option string)
  (upstream : string -> dict pval -> reply) (py_str : json -> string)
  (limit connector_limit : Z) (d : string) (seeds : list string)
  : list string :=
  filter (fun seed =>
            str_in d (local_pmids_of API_KEY upstream py_str connector_limit
                        (resolve_seed API_KEY upstream py_str limit seed)))
         seeds.

(** The pairs a seed adds to the edge set: a primary identifier with one of
    its references, or two neighbours of the working set as iterated. *)
Definition seed_edge (API_KEY : option string)
  (upstream : string -> dict pval -> reply) (py_str : json -> string)
  (order : pyset -> list string) (limit connector_limit : Z)
  (seed x y : string) : Prop :=
  (In x (resolve_seed API_KEY upstream py_str limit seed) /\
   In y (get_citations_of API_KEY upstream py_str x "refs" connector_limit)) \/
  adjacent x y
    (order (local_pmids_of API_KEY upstream py_str connector_limit
              (resolve_seed API_KEY upstream py_str limit seed))).

(** A data source none of whose answers can be used. *)
Definition source_down (upstream : string -> dict pval -> reply) : Prop :=
  forall url params,
    json_failure (upstream url params) /\ xml_failure (upstream url params).

(** What the normalizer guarantees of a record, carried over to the node. *)
Definition node_filled (API_KEY : option string)
  (upstream : string -> dict pval -> reply) (k : string) (n : node) : Prop :=
  let meta := get_article_summary_by_pmid API_KEY upstream k in
  n_title_full n = meta_title meta /\
  n_abstract n = meta_abstract meta /\
  n_journal n = meta_journal meta /\
  n_pubdate n = meta_pubdate meta /\
  n_mesh_detail n = meta_mesh meta /\
  n_mesh n = map descriptor (n_mesh_detail n).

(** The colour tells whether the node is shared. *)
Definition node_coloured (k : string) (n : node) : Prop :=
  (n_shared n = true /\ n_color n = shared_color) \/
  (n_shared n = false /\ In (n_color n) palette /\
   n_seedGroups n = [n_seedGroup n]).

(** The [elink] answer with the given link sets, each a list of groups of
    links. *)
Definition linksets_doc (sets : list (list (list json))) : json :=
  JObj [("linksets",
         JArr (map (fun groups =>
                      JObj [("linksetdb",
                             JArr (map (fun links => JObj [("links", JArr links)])
                                       groups))])
                   sets))].

(** A source that only answers [elink], with the document [doc]. *)
Definition stub_elink (doc : json) (url : string) (params : dict pval) : reply :=
  if String.eqb url "https://eutils.ncbi.nlm.nih.gov/entrez/eutils/elink.fcgi"
  then ok_json doc
  else TransportError.

(** A source that only answers [esearch], with the document [doc]. *)
Definition stub_esearch (doc : json) (url : string) (params : dict pval)
  : reply :=
  if String.eqb url "https://eutils.ncbi.nlm.nih.gov/entrez/eutils/esearch.fcgi"
  then ok_json doc
  else TransportError.



(** The link from article 1 to its reference 7. *)
Definition link_1_7 : link :=
  {| l_source := "1"; l_target := "7";
     l_color := "#cccccc"; l_semantic := false |}.





(** * Properties *)

(** ** Strings *)

Lemma str_truthy_false (s : string) : str_truthy s = false <-> s = EmptyString.
Proof. destruct s; simpl; split; congruence. Qed.

Lemma str_in_iff (x : string) (l : list string) : str_in x l = true <-> In x l.
Proof.
  unfold str_in. rewrite existsb_exists. split.
  - intros [y [Hy Heq]]. apply String.eqb_eq in Heq. now subst.
  - intros H. exists x. split; [assumption | apply String.eqb_refl].
Qed.

Lemma str_in_false (x : string) (l : list string) :
  str_in x l = false <-> ~ In x l.
Proof.
  rewrite <- str_in_iff. destruct (str_in x l); split; congruence.
Qed.

Lemma split_arrow_nonempty (s : string) : split_arrow s <> [].
Proof.
  destruct s as [|c [|c2 s2]]; try (simpl; discriminate).
  change (split_arrow (String c (String c2 s2)))
    with (if Ascii.eqb c "-" && Ascii.eqb c2 ">"
          then EmptyString :: split_arrow s2
          else cons_head c (split_arrow (String c2 s2))).
  destruct (Ascii.eqb c "-" && Ascii.eqb c2 ">"); [discriminate|].
  unfold cons_head. destruct (split_arrow (String c2 s2)); discriminate.
Qed.

Lemma join_cons_head (sep : string) (c : ascii) (l : list string) :
  l <> [] -> join sep (cons_head c l) = String c (join sep l).
Proof.
  destruct l as [|p [|q ps]]; simpl; intros H; congruence.
Qed.

Lemma join_split_arrow_bounded (n : nat) :
  forall s, String.length s <= n -> join "->" (split_arrow s) = s.
Proof.
  induction n as [|n IH]; intros s Hlen.
  - destruct s; [reflexivity | simpl in Hlen; lia].
  - destruct s as [|c [|c2 s2]]; try reflexivity.
    change (split_arrow (String c (String c2 s2)))
      with (if Ascii.eqb c "-" && Ascii.eqb c2 ">"
            then EmptyString :: split_arrow s2
            else cons_head c (split_arrow (String c2 s2))).
    destruct (Ascii.eqb c "-" && Ascii.eqb c2 ">") eqn:Harrow.
    + apply andb_true_iff in Harrow as [H1 H2].
      apply Ascii.eqb_eq in H1, H2. subst c c2.
      assert (Hrec : join "->" (split_arrow s2) = s2)
        by (apply IH; simpl in Hlen; lia).
      destruct (split_arrow s2) as [|p ps] eqn:Hs2.
      * now apply split_arrow_nonempty in Hs2.
      * change (join "->" (EmptyString :: p :: ps))
          with (String "-" (String ">" (join "->" (p :: ps)))).
        now rewrite Hrec.
    + rewrite join_cons_head by apply split_arrow_nonempty.
      f_equal. apply IH. simpl in Hlen. simpl. lia.
Qed.

(** Joining the pieces of a split gives the string back. *)
Lemma join_split_arrow (s : string) : join "->" (split_arrow s) = s.
Proof. now apply (join_split_arrow_bounded (String.length s)). Qed.

(** ** Sets and dicts *)

Lemma fold_left_invariant {A B : Type} (P : A -> Prop) (f : A -> B -> A)
  (l : list B) :
  (forall a b, P a -> P (f a b)) -> forall a, P a -> P (fold_left f l a).
Proof.
  intros Hstep. induction l as [|b l IH]; simpl; intros a Ha; auto.
Qed.

Lemma NoDup_snoc {A : Type} (l : list A) (x : A) :
  NoDup l -> ~ In x l -> NoDup (l ++ [x]).
Proof.
  intros Hl Hx. apply (Permutation_NoDup (Permutation_cons_append l x)).
  now constructor.
Qed.

Lemma set_add_In (x y : string) (s : pyset) :
  In x (set_add y s) <-> x = y \/ In x s.
Proof.
  unfold set_add. destruct (str_in y s) eqn:E.
  - apply str_in_iff in E. split; [auto | intros [->|H]; auto].
  - rewrite in_app_iff. simpl. intuition congruence.
Qed.

Lemma set_add_NoDup (y : string) (s : pyset) : NoDup s -> NoDup (set_add y s).
Proof.
  intros Hs. unfold set_add. destruct (str_in y s) eqn:E; [assumption|].
  apply NoDup_snoc; [assumption | now apply str_in_false].
Qed.

Lemma fold_set_add_NoDup {A : Type} (key : A -> string) (l : list A)
  (s : pyset) :
  NoDup s -> NoDup (fold_left (fun acc r => set_add (key r) acc) l s).
Proof.
  apply (fold_left_invariant (@NoDup string)). intros a b.
  apply set_add_NoDup.
Qed.

Lemma set_of_list_NoDup (l : list string) : NoDup (set_of_list l).
Proof. apply (fold_set_add_NoDup (fun x => x)). constructor. Qed.

Lemma fold_set_add_In {A : Type} (key : A -> string) (l : list A) :
  forall (s : pyset) (x : string),
    In x (fold_left (fun acc r => set_add (key r) acc) l s)
    <-> In x s \/ In x (map key l).
Proof.
  induction l as [|r l IH]; simpl; intros s x.
  - tauto.
  - rewrite IH, set_add_In. intuition congruence.
Qed.

Lemma chain_edges_NoDup (l : list string) :
  forall links, NoDup links -> NoDup (chain_edges l links).
Proof.
  induction l as [|a [|b l] IH]; intros links Hl; try assumption.
  change (NoDup (chain_edges (b :: l) (set_add (edge_key a b) links))).
  apply IH. now apply set_add_NoDup.
Qed.

Section DictFacts.
Context {V : Type}.
Implicit Types (d : dict V) (k : string) (v : V).

Lemma dict_get_In k v d : dict_get k d = Some v -> In (k, v) d.
Proof.
  induction d as [|[k' v'] d IH]; simpl; [discriminate|].
  destruct (String.eqb k k') eqn:E.
  - apply String.eqb_eq in E. intros [= ->]. now left; subst.
  - intros H. right. auto.
Qed.

Lemma dict_get_None k d : dict_get k d = None <-> ~ In k (dict_keys d).
Proof.
  induction d as [|[k' v'] d IH]; simpl; [tauto|].
  destruct (String.eqb k k') eqn:E.
  - apply String.eqb_eq in E. subst. split; [discriminate | tauto].
  - apply String.eqb_neq in E. rewrite IH. intuition congruence.
Qed.

Lemma dict_mem_iff k d : dict_mem k d = true <-> In k (dict_keys d).
Proof.
  unfold dict_mem. destruct (dict_get k d) eqn:E.
  - split; [intros _ | reflexivity].
    apply dict_get_In in E. now apply (in_map fst) in E.
  - apply dict_get_None in E. split; [discriminate | tauto].
Qed.

Lemma In_dict_get k v d : NoDup (dict_keys d) -> In (k, v) d -> dict_get k d = Some v.
Proof.
  induction d as [|[k' v'] d IH]; simpl; [tauto|].
  intros Hnd [Heq | Hin].
  - injection Heq as -> ->. now rewrite String.eqb_refl.
  - inversion Hnd as [|? ? Hk' Hd]; subst.
    destruct (String.eqb k k') eqn:E; [|auto].
    apply String.eqb_eq in E. subst. exfalso. apply Hk'.
    now apply (in_map fst) in Hin.
Qed.

Lemma dict_set_new k v d : dict_mem k d = false -> dict_set k v d = d ++ [(k, v)].
Proof.
  unfold dict_mem. induction d as [|[k' v'] d IH]; simpl; [reflexivity|].
  destruct (String.eqb k k'); [discriminate|]. intros H. now rewrite IH.
Qed.

Lemma dict_get_set k k' v d :
  dict_get k (dict_set k' v d) = if String.eqb k k' then Some v else dict_get k d.
Proof.
  induction d as [|[k0 v0] d IH]; simpl.
  - reflexivity.
  - destruct (String.eqb k' k0) eqn:E0; simpl.
    + apply String.eqb_eq in E0. subst k0. now destruct (String.eqb k k').
    + destruct (String.eqb k k0) eqn:E1.
      * apply String.eqb_eq in E1. subst k0.
        rewrite String.eqb_sym in E0. now rewrite E0.
      * apply IH.
Qed.

Lemma dict_update_keys k (f : V -> V) d : dict_keys (dict_update k f d) = dict_keys d.
Proof.
  induction d as [|[k' v'] d IH]; simpl; [reflexivity|].
  destruct (String.eqb k k'); simpl; [reflexivity | now rewrite IH].
Qed.

Lemma dict_get_update k k' (f : V -> V) d :
  dict_get k (dict_update k' f d)
  = if String.eqb k k' then option_map f (dict_get k d) else dict_get k d.
Proof.
  induction d as [|[k0 v0] d IH]; simpl.
  - now destruct (String.eqb k k').
  - destruct (String.eqb k' k0) eqn:E0; simpl.
    + apply String.eqb_eq in E0. subst k0. now destruct (String.eqb k k').
    + destruct (String.eqb k k0) eqn:E1.
      * apply String.eqb_eq in E1. subst k0.
        rewrite String.eqb_sym in E0. now rewrite E0.
      * apply IH.
Qed.

(** With distinct keys, updating [k] is a map over the entries. *)
Lemma dict_update_map k (f : V -> V) d :
  NoDup (dict_keys d) ->
  dict_update k f d
  = map (fun kv => if String.eqb k (fst kv) then (fst kv, f (snd kv)) else kv) d.
Proof.
  induction d as [|[k' v'] d IH]; simpl; [reflexivity|].
  intros Hnd. inversion Hnd as [|? ? Hk' Hd]; subst.
  destruct (String.eqb k k') eqn:E.
  - f_equal. apply String.eqb_eq in E. subst k'.
    clear IH Hnd Hd. induction d as [|[k0 v0] d IH]; simpl; [reflexivity|].
    simpl in Hk'. destruct (String.eqb k k0) eqn:E0.
    + apply String.eqb_eq in E0. subst k0. tauto.
    + f_equal. apply IH. tauto.
  - f_equal. now apply IH.
Qed.

End DictFacts.

(** ** The node map *)

Lemma In_dict_update {V : Type} (k : string) (f : V -> V) (d : dict V)
  (k0 : string) (v : V) :
  In (k0, v) (dict_update k f d) ->
  In (k0, v) d \/ exists v0, In (k0, v0) d /\ v = f v0.
Proof.
  induction d as [|[k' v'] d IH]; simpl; [tauto|].
  destruct (String.eqb k k'); simpl.
  - intros [[= <- <-] | H]; [right; exists v'; auto | auto].
  - intros [H | H]; [auto|]. destruct (IH H) as [H1 | [v0 [H1 H2]]]; [auto|].
    right. exists v0. auto.
Qed.

Lemma mark_shared_ok (seed k : string) (n : node) :
  node_ok k n -> node_ok k (mark_shared seed n).
Proof.
  intros (Hid & Hname & Hval & Hhd & Hnd).
  repeat split; simpl; try assumption.
  - destruct (str_in seed (n_seedGroups n)); simpl; [assumption|].
    destruct (n_seedGroups n); [discriminate | assumption].
  - destruct (str_in seed (n_seedGroups n)) eqn:E; simpl; [assumption|].
    apply NoDup_snoc; [assumption | now apply str_in_false].
Qed.

Section GraphFacts.

Variable API_KEY : option string.
Variable upstream : string -> dict pval -> reply.
Variable py_str : json -> string.
Variable order : pyset -> list string.
Variables limit connector_limit : Z.

Local Abbreviation step := (node_step API_KEY upstream).
Local Abbreviation body :=
  (seed_body API_KEY upstream py_str order limit connector_limit).
Local Abbreviation loop :=
  (seed_loop API_KEY upstream py_str order limit connector_limit).
Local Abbreviation state_after :=
  (build_state API_KEY upstream py_str order limit connector_limit).
Local Abbreviation resolve := (resolve_seed API_KEY upstream py_str limit).
Local Abbreviation working_set :=
  (local_pmids_of API_KEY upstream py_str connector_limit).

Lemma new_node_ok (s_index : nat) (seed pmid : string) :
  node_ok pmid (new_node API_KEY upstream s_index seed pmid).
Proof.
  repeat split; simpl; try reflexivity.
  constructor; [simpl; tauto | constructor].
Qed.

Lemma node_step_ok (s_index : nat) (seed : string) (d : dict node)
  (pmid : string) :
  nodes_ok d -> nodes_ok (step s_index seed d pmid).
Proof.
  intros [Hkeys Hall]. unfold node_step.
  destruct (dict_mem pmid d) eqn:Hmem.
  - split; [now rewrite dict_update_keys|].
    intros k n Hin. apply In_dict_update in Hin as [Hin | [n0 [Hin ->]]].
    + now apply Hall.
    + apply mark_shared_ok. now apply Hall.
  - rewrite dict_set_new by assumption. split.
    + unfold dict_keys. rewrite map_app. simpl. apply NoDup_snoc; [assumption|].
      intros Hin. apply dict_mem_iff in Hin. congruence.
    + intros k n Hin. apply in_app_or in Hin as [Hin | [[= <- <-] | []]].
      * now apply Hall.
      * apply new_node_ok.
Qed.

Lemma seed_body_ok (s_index : nat) (seed : string) (st : graph_state) :
  nodes_ok (all_nodes st) -> nodes_ok (all_nodes (body s_index seed st)).
Proof.
  intros Hst. unfold seed_body. destruct (resolve seed); [assumption|].
  simpl. apply (fold_left_invariant nodes_ok); [|assumption].
  intros d pmid. apply node_step_ok.
Qed.

Lemma seed_loop_ok (seeds : list string) :
  forall s_index st,
    nodes_ok (all_nodes st) -> nodes_ok (all_nodes (loop s_index seeds st)).
Proof.
  induction seeds as [|seed rest IH]; simpl; intros s_index st Hst.
  - assumption.
  - apply IH. now apply seed_body_ok.
Qed.

Lemma build_state_ok (seeds : list string) :
  nodes_ok (all_nodes (state_after seeds)).
Proof.
  apply seed_loop_ok. split; [constructor | intros k n []].
Qed.

Lemma ids_are_keys (d : dict node) :
  nodes_ok d -> map n_id (dict_values d) = dict_keys d.
Proof.
  intros [_ Hall]. unfold dict_values, dict_keys. rewrite map_map.
  apply map_ext_in. intros [k n] Hin. simpl. now destruct (Hall k n Hin).
Qed.

(** C10: in every graph built, node ids are pairwise distinct, and every
    node has its name equal to its full title, the value 12, a non-empty
    list of seed groups without repetition, and for seed group the first of
    its seed groups. *)
Theorem C10_node_invariants (seeds : list string) :
  let nodes :=
    fst (build_graph API_KEY upstream py_str order limit connector_limit seeds) in
  NoDup (map n_id nodes) /\
  forall n, In n nodes ->
    n_name n = n_title_full n /\
    n_val n = 12%Z /\
    n_seedGroups n <> [] /\
    NoDup (n_seedGroups n) /\
    hd_error (n_seedGroups n) = Some (n_seedGroup n).
Proof.
  simpl. unfold nodes_of. pose proof (build_state_ok seeds) as Hok.
  split.
  - rewrite ids_are_keys by assumption. apply Hok.
  - intros n Hin. unfold dict_values in Hin. apply in_map_iff in Hin.
    destruct Hin as [[k n'] [Heq Hin]]. simpl in Heq. subst n'.
    destruct Hok as [_ Hall].
    destruct (Hall k n Hin) as (_ & Hname & Hval & Hhd & Hnd).
    repeat split; try assumption.
    intros Hnil. rewrite Hnil in Hhd. discriminate.
Qed.

(** ** The edge set *)

Lemma add_citations_NoDup (links : pyset) (a : string) :
  NoDup links ->
  NoDup (add_citations API_KEY upstream py_str connector_limit links a).
Proof. apply (fold_set_add_NoDup (edge_key a)). Qed.

Lemma seed_body_links_NoDup (s_index : nat) (seed : string) (st : graph_state) :
  NoDup (all_links st) -> NoDup (all_links (body s_index seed st)).
Proof.
  intros Hst. unfold seed_body. destruct (resolve seed); [assumption|].
  cbv zeta. cbn [all_links]. apply chain_edges_NoDup. unfold citation_edges.
  apply (fold_left_invariant (@NoDup string)); [|assumption].
  intros links a. apply add_citations_NoDup.
Qed.

Lemma seed_loop_links_NoDup (seeds : list string) :
  forall s_index st,
    NoDup (all_links st) -> NoDup (all_links (loop s_index seeds st)).
Proof.
  induction seeds as [|seed rest IH]; simpl; intros s_index st Hst.
  - assumption.
  - apply IH. now apply seed_body_links_NoDup.
Qed.

Lemma node_map_of_snoc (nodes : list node) (n : node) :
  node_map_of (nodes ++ [n]) = dict_set (n_id n) n (node_map_of nodes).
Proof. unfold node_map_of. now rewrite fold_left_app. Qed.

(** A hit in [node_map] is a node of the list, filed under its own id. *)
Lemma node_map_of_get (nodes : list node) :
  forall a src,
    dict_get a (node_map_of nodes) = Some src -> In src nodes /\ n_id src = a.
Proof.
  induction nodes as [|n nodes IH] using rev_ind; intros a src.
  - discriminate.
  - rewrite node_map_of_snoc, dict_get_set, in_app_iff.
    destruct (String.eqb a (n_id n)) eqn:E.
    + apply String.eqb_eq in E. intros [= ->]. split; [right; now left | easy].
    + intros H. destruct (IH a src H). auto.
Qed.

Lemma link_of_edge_In (m : dict node) (edge : string) (l : link) :
  In l (link_of_edge m edge) ->
  edge = edge_key (l_source l) (l_target l) /\
  (exists src, dict_get (l_source l) m = Some src) /\
  (exists tgt, dict_get (l_target l) m = Some tgt).
Proof.
  unfold link_of_edge.
  destruct (split_arrow edge) as [|a [|b [|c rest]]] eqn:Hsplit; try easy.
  destruct (dict_get a m) as [src|] eqn:Ha; [|easy].
  destruct (dict_get b m) as [tgt|] eqn:Hb; [|easy].
  intros [<- | []]. simpl. repeat split; eauto.
  rewrite <- (join_split_arrow edge), Hsplit. reflexivity.
Qed.

Lemma links_distinct (m : dict node) (edges : list string) :
  NoDup edges -> NoDup (map endpoints (flat_map (link_of_edge m) edges)).
Proof.
  induction edges as [|e edges IH]; simpl; intros Hnd; [constructor|].
  inversion Hnd as [|? ? He Hrest]; subst.
  rewrite map_app. specialize (IH Hrest).
  destruct (link_of_edge m e) as [|l [|l' ls]] eqn:Hl; simpl.
  - assumption.
  - constructor; [|assumption].
    intros Hin. apply in_map_iff in Hin as [l2 [Heq Hin]].
    apply in_flat_map in Hin as [e2 [He2 Hl2]].
    apply link_of_edge_In in Hl2 as [-> _].
    assert (Hl1 : In l (link_of_edge m e)) by (rewrite Hl; now left).
    apply link_of_edge_In in Hl1 as [-> _].
    unfold endpoints in Heq. injection Heq as Hs Ht.
    rewrite Hs, Ht in He2. contradiction.
  - exfalso. unfold link_of_edge in Hl.
    destruct (split_arrow e) as [|a [|b [|c rest]]]; try discriminate.
    destruct (dict_get a m); [|discriminate].
    destruct (dict_get b m); discriminate.
Qed.

Hypothesis order_ok : set_iteration order.

(** C1: every link of the graph built joins two ids of the node list, and no
    two links have the same ordered pair of source and target. *)
Theorem C1_links_join_nodes (seeds : list string) :
  let graph :=
    build_graph API_KEY upstream py_str order limit connector_limit seeds in
  (forall l, In l (snd graph) ->
     In (l_source l) (map n_id (fst graph)) /\
     In (l_target l) (map n_id (fst graph))) /\
  NoDup (map endpoints (snd graph)).
Proof.
  simpl. split.
  - intros l Hin. unfold links_of in Hin.
    apply in_flat_map in Hin as [e [_ Hl]].
    apply link_of_edge_In in Hl as (_ & [src Hsrc] & [tgt Htgt]).
    apply node_map_of_get in Hsrc as [Hsrc <-], Htgt as [Htgt <-].
    split; now apply in_map.
  - unfold links_of. apply links_distinct.
    assert (Hnd : NoDup (all_links (state_after seeds)))
      by (apply seed_loop_links_NoDup; constructor).
    exact (Permutation_NoDup (order_ok _ Hnd) Hnd).
Qed.

(** ** Nodes met under several seeds *)

Lemma holds_at_and (d : string) (P Q : node -> Prop) (nodes : dict node) :
  holds_at d P nodes -> holds_at d Q nodes ->
  holds_at d (fun n => P n /\ Q n) nodes.
Proof.
  intros [n [Hn HP]] [n' [Hn' HQ]]. rewrite Hn in Hn'. injection Hn' as <-.
  exists n. auto.
Qed.

Lemma holds_at_mem (d : string) (P : node -> Prop) (nodes : dict node) :
  holds_at d P nodes -> dict_mem d nodes = true.
Proof. intros [n [Hn _]]. unfold dict_mem. now rewrite Hn. Qed.

Lemma stable_in_groups (A : string) : stable (fun n => In A (n_seedGroups n)).
Proof.
  intros seed n H. simpl. destruct (str_in seed (n_seedGroups n)); simpl.
  - assumption.
  - apply in_or_app. now left.
Qed.

Lemma stable_shared :
  stable (fun n => n_shared n = true /\ n_color n = shared_color).
Proof. intros seed n _. simpl. auto. Qed.

Lemma stable_shared_flag : stable (fun n => n_shared n = true).
Proof. intros seed n _. reflexivity. Qed.

Lemma stable_and (P Q : node -> Prop) :
  stable P -> stable Q -> stable (fun n => P n /\ Q n).
Proof. intros HP HQ seed n [H1 H2]. split; [now apply HP | now apply HQ]. Qed.

Lemma node_step_keeps (P : node -> Prop) (d : string) (s_index : nat)
  (seed : string) (nodes : dict node) (x : string) :
  stable P -> holds_at d P nodes -> holds_at d P (step s_index seed nodes x).
Proof.
  intros HP [n [Hn Hpn]]. unfold node_step, holds_at.
  destruct (dict_mem x nodes) eqn:Hmem.
  - rewrite dict_get_update, Hn. destruct (String.eqb d x); simpl; eauto.
  - rewrite dict_get_set. destruct (String.eqb d x) eqn:E; [|eauto].
    apply String.eqb_eq in E. subst x. unfold dict_mem in Hmem.
    rewrite Hn in Hmem. discriminate.
Qed.

(** The turn of the loop that meets [d] files the seed in its groups, and
    marks it shared when it was there before. *)
Lemma node_step_hit (d : string) (s_index : nat) (seed : string)
  (nodes : dict node) :
  holds_at d (fun n => In seed (n_seedGroups n) /\
                       (dict_mem d nodes = true ->
                        n_shared n = true /\ n_color n = shared_color))
           (step s_index seed nodes d).
Proof.
  unfold node_step, holds_at. destruct (dict_mem d nodes) eqn:Hmem.
  - rewrite dict_get_update, String.eqb_refl. unfold dict_mem in Hmem.
    destruct (dict_get d nodes) as [n0|]; [|discriminate].
    exists (mark_shared seed n0). simpl. repeat split.
    destruct (str_in seed (n_seedGroups n0)) eqn:E; simpl.
    + now apply str_in_iff.
    + apply in_or_app. right. now left.
  - rewrite dict_get_set, String.eqb_refl. eexists. split; [reflexivity|].
    simpl. split; [now left | discriminate].
Qed.

Lemma node_loop_keeps (P : node -> Prop) (d : string) (s_index : nat)
  (seed : string) (l : list string) :
  stable P -> forall nodes,
    holds_at d P nodes -> holds_at d P (fold_left (step s_index seed) l nodes).
Proof.
  intros HP. apply (fold_left_invariant (holds_at d P)).
  intros nodes x. now apply node_step_keeps.
Qed.

Lemma node_loop_hit (d : string) (s_index : nat) (seed : string)
  (l : list string) (nodes : dict node) :
  In d l ->
  holds_at d (fun n => In seed (n_seedGroups n) /\
                       (dict_mem d nodes = true ->
                        n_shared n = true /\ n_color n = shared_color))
           (fold_left (step s_index seed) l nodes).
Proof.
  intros Hin. apply in_split in Hin as [l1 [l2 ->]].
  rewrite fold_left_app. simpl.
  set (nodes1 := fold_left (step s_index seed) l1 nodes).
  assert (Hmem : dict_mem d nodes = true -> dict_mem d nodes1 = true).
  { intros H. apply (holds_at_mem d (fun _ => True)).
    apply node_loop_keeps; [easy|]. unfold dict_mem in H.
    destruct (dict_get d nodes) as [n|] eqn:E; [|discriminate].
    exists n. auto. }
  apply node_loop_keeps.
  - intros s n [H1 H2]. split; [now apply stable_in_groups|].
    intros _. simpl. auto.
  - destruct (node_step_hit d s_index seed nodes1) as [n [Hn [H1 H2]]].
    exists n. auto.
Qed.

Lemma working_set_NoDup (pmids : list string) : NoDup (working_set pmids).
Proof.
  unfold local_pmids_of.
  apply (fold_left_invariant (@NoDup string)); [|apply set_of_list_NoDup].
  intros s p. apply (fold_set_add_NoDup (fun r => r)).
Qed.

Lemma seed_body_keeps (P : node -> Prop) (d : string) (s_index : nat)
  (seed : string) (st : graph_state) :
  stable P ->
  holds_at d P (all_nodes st) -> holds_at d P (all_nodes (body s_index seed st)).
Proof.
  intros HP Hst. unfold seed_body. destruct (resolve seed); [assumption|].
  cbv zeta. cbn [all_nodes]. now apply node_loop_keeps.
Qed.

Lemma seed_body_hit (d : string) (s_index : nat) (seed : string)
  (st : graph_state) :
  discovered API_KEY upstream py_str limit connector_limit seed d ->
  holds_at d (fun n => In seed (n_seedGroups n) /\
                       (dict_mem d (all_nodes st) = true ->
                        n_shared n = true /\ n_color n = shared_color))
           (all_nodes (body s_index seed st)).
Proof.
  unfold discovered, seed_body. intros Hd.
  destruct (resolve seed) as [|p pmids] eqn:Hres; [destruct Hd|].
  cbv zeta. cbn [all_nodes]. apply node_loop_hit.
  apply (Permutation_in d (order_ok _ (working_set_NoDup (p :: pmids)))).
  assumption.
Qed.

Lemma seed_loop_keeps (P : node -> Prop) (d : string) (seeds : list string) :
  stable P -> forall s_index st,
    holds_at d P (all_nodes st) ->
    holds_at d P (all_nodes (loop s_index seeds st)).
Proof.
  intros HP. induction seeds as [|seed rest IH]; simpl; intros s_index st Hst.
  - assumption.
  - apply IH. now apply seed_body_keeps.
Qed.

Lemma seed_loop_app (s1 s2 : list string) :
  forall s_index st,
    loop s_index (s1 ++ s2) st
    = loop (s_index + List.length s1) s2 (loop s_index s1 st).
Proof.
  induction s1 as [|seed s1 IH]; simpl; intros s_index st.
  - now rewrite Nat.add_0_r.
  - rewrite IH. f_equal. lia.
Qed.

(** C2: an identifier discovered under a seed [A] and again under a later
    seed [B] ends as a node of the graph that is shared, lists both [A] and
    [B] among its seed groups and has the shared colour, whatever seeds come
    before, between and after; and a node that is shared after some of the
    seeds is still shared after more of them. *)
Theorem C2_shared_across_seeds (pre mid post : list string) (A B d : string) :
  discovered API_KEY upstream py_str limit connector_limit A d ->
  discovered API_KEY upstream py_str limit connector_limit B d ->
  (exists n,
     In n (fst (build_graph API_KEY upstream py_str order limit connector_limit
                  (pre ++ A :: mid ++ B :: post))) /\
     n_id n = d /\
     n_shared n = true /\
     In A (n_seedGroups n) /\
     In B (n_seedGroups n) /\
     n_color n = shared_color) /\
  (forall seeds more n,
     dict_get d (all_nodes (state_after seeds)) = Some n ->
     n_shared n = true ->
     exists n',
       dict_get d (all_nodes (state_after (seeds ++ more))) = Some n' /\
       n_shared n' = true).
Proof.
  intros HA HB. split.
  - set (P := fun n => (n_shared n = true /\ n_color n = shared_color) /\
                       In A (n_seedGroups n) /\ In B (n_seedGroups n)).
    assert (HP : stable P).
    { apply stable_and; [apply stable_shared|].
      apply stable_and; apply stable_in_groups. }
    assert (H : holds_at d P (all_nodes (state_after (pre ++ A :: mid ++ B :: post)))).
    { unfold build_state. rewrite seed_loop_app. simpl.
      rewrite seed_loop_app. simpl.
      apply seed_loop_keeps; [exact HP|].
      set (st1 := loop 0 pre (empty_state)).
      set (st2 := body (0 + List.length pre) A st1).
      set (st3 := loop (S (0 + List.length pre)) mid st2).
      assert (H2 : holds_at d (fun n => In A (n_seedGroups n)) (all_nodes st3)).
      { apply seed_loop_keeps; [apply stable_in_groups|].
        destruct (seed_body_hit d (0 + List.length pre) A st1 HA)
          as [n [Hn [Hin _]]].
        exists n. auto. }
      pose proof (holds_at_mem _ _ _ H2) as Hmem.
      destruct (seed_body_hit d (S (0 + List.length pre) + List.length mid)
                  B st3 HB) as [n [Hn [HinB Hsh]]].
      apply holds_at_and; [exists n; auto|].
      apply holds_at_and; [|exists n; auto].
      apply seed_body_keeps; [apply stable_in_groups | exact H2]. }
    destruct H as [n [Hn [[Hsh Hcol] [HinA HinB]]]].
    exists n. simpl. repeat split; try assumption.
    + unfold nodes_of, dict_values. apply dict_get_In in Hn.
      now apply (in_map snd) in Hn.
    + apply dict_get_In in Hn.
      now destruct (proj2 (build_state_ok _) d n Hn).
  - intros seeds more n Hn Hsh. unfold build_state. rewrite seed_loop_app.
    apply (seed_loop_keeps (fun n => n_shared n = true) d more
             stable_shared_flag).
    exists n. auto.
Qed.

(** ** The metadata loop does not depend on the order of its list *)

Lemma bool_ext (a b : bool) : (a = true <-> b = true) -> a = b.
Proof. destruct a, b; intuition congruence. Qed.

Lemma dict_mem_update {V : Type} (k x : string) (f : V -> V) (d : dict V) :
  dict_mem k (dict_update x f d) = dict_mem k d.
Proof.
  apply bool_ext. now rewrite !dict_mem_iff, dict_update_keys.
Qed.

Lemma dict_mem_snoc {V : Type} (k x : string) (v : V) (d : dict V) :
  k <> x -> dict_mem k (d ++ [(x, v)]) = dict_mem k d.
Proof.
  intros Hne. apply bool_ext. rewrite !dict_mem_iff. unfold dict_keys.
  rewrite map_app, in_app_iff. simpl. intuition congruence.
Qed.

Lemma Permutation_filter {A : Type} (p : A -> bool) (l1 l2 : list A) :
  Permutation l1 l2 -> Permutation (filter p l1) (filter p l2).
Proof.
  induction 1 as [|x l1 l2 _ IH|x y l|l1 l2 l3 _ IH1 _ IH2]; simpl.
  - constructor.
  - destruct (p x); [now constructor | assumption].
  - destruct (p x), (p y); try reflexivity. constructor.
  - now transitivity (filter p l2).
Qed.

Lemma str_in_Permutation (k : string) (l1 l2 : list string) :
  Permutation l1 l2 -> str_in k l1 = str_in k l2.
Proof.
  intros H. apply bool_ext. rewrite !str_in_iff.
  split; apply Permutation_in; [assumption | now symmetry].
Qed.

Lemma touch_nil (seed : string) (nodes : dict node) :
  map (touch seed []) nodes = nodes.
Proof.
  induction nodes as [|kv nodes IH]; simpl; [reflexivity|]. now rewrite IH.
Qed.

Lemma node_loop_closed_form (s_index : nat) (seed : string) (l : list string) :
  NoDup l -> forall nodes,
    NoDup (dict_keys nodes) ->
    fold_left (step s_index seed) l nodes
    = map (touch seed l) nodes ++ fresh API_KEY upstream s_index seed nodes l.
Proof.
  induction 1 as [|x l Hx Hl IH]; intros nodes Hkeys.
  - unfold fresh. simpl. now rewrite touch_nil, app_nil_r.
  - simpl fold_left. unfold node_step at 2.
    destruct (dict_mem x nodes) eqn:Hmem.
    + rewrite IH by now rewrite dict_update_keys.
      rewrite dict_update_map by assumption. rewrite map_map. f_equal.
      * apply map_ext. intros [k n]. unfold touch. simpl.
        destruct (String.eqb x k) eqn:E; simpl.
        -- apply String.eqb_eq in E. subst k. rewrite String.eqb_refl. simpl.
           apply str_in_false in Hx. now rewrite Hx.
        -- rewrite String.eqb_sym, E. reflexivity.
      * unfold fresh. simpl. rewrite Hmem. simpl. f_equal.
        apply filter_ext. intros y. f_equal.
        rewrite <- dict_update_map by assumption. apply dict_mem_update.
    + rewrite dict_set_new by assumption.
      rewrite IH.
      2:{ unfold dict_keys. rewrite map_app. simpl.
          apply NoDup_snoc; [assumption|]. intros Hin.
          apply dict_mem_iff in Hin. congruence. }
      rewrite map_app, <- app_assoc. f_equal.
      * apply map_ext_in. intros [k n] Hin. unfold touch. simpl.
        destruct (String.eqb k x) eqn:E; [|reflexivity].
        apply String.eqb_eq in E. subst k. exfalso.
        apply (in_map fst) in Hin. apply dict_mem_iff in Hin.
        simpl in Hin. congruence.
      * unfold fresh. simpl. rewrite Hmem. simpl.
        unfold touch. simpl. apply str_in_false in Hx. rewrite Hx. f_equal.
        f_equal. apply filter_ext_in. intros y Hy. f_equal.
        apply dict_mem_snoc. intros ->. apply str_in_false in Hx. contradiction.
Qed.

Lemma node_loop_Permutation (s_index : nat) (seed : string)
  (l1 l2 : list string) (nodes1 nodes2 : dict node) :
  NoDup l1 -> Permutation l1 l2 ->
  NoDup (dict_keys nodes1) -> Permutation nodes1 nodes2 ->
  Permutation (fold_left (step s_index seed) l1 nodes1)
              (fold_left (step s_index seed) l2 nodes2).
Proof.
  intros Hl1 Hl Hk1 Hn.
  assert (Hl2 : NoDup l2) by exact (Permutation_NoDup Hl Hl1).
  assert (Hkeys : Permutation (dict_keys nodes1) (dict_keys nodes2))
    by now apply Permutation_map.
  assert (Hk2 : NoDup (dict_keys nodes2)) by exact (Permutation_NoDup Hkeys Hk1).
  rewrite !node_loop_closed_form by assumption.
  apply Permutation_app.
  - rewrite (map_ext (touch seed l1) (touch seed l2)).
    + now apply Permutation_map.
    + intros kv. unfold touch. now rewrite (str_in_Permutation _ _ _ Hl).
  - unfold fresh. apply Permutation_map.
    rewrite (filter_ext (fun x => negb (dict_mem x nodes1))
                        (fun x => negb (dict_mem x nodes2))).
    + now apply Permutation_filter.
    + intros x. f_equal. apply bool_ext. rewrite !dict_mem_iff.
      split; apply Permutation_in; [assumption | now symmetry].
Qed.

End GraphFacts.

(** ** Two runs on the same input *)

Section Rerun.

Variable API_KEY : option string.
Variable upstream : string -> dict pval -> reply.
Variable py_str : json -> string.
Variables limit connector_limit : Z.

(** The two runs may iterate over their sets in different orders. *)
Variables order1 order2 : pyset -> list string.
Hypothesis order1_ok : set_iteration order1.
Hypothesis order2_ok : set_iteration order2.

Local Abbreviation body1 :=
  (seed_body API_KEY upstream py_str order1 limit connector_limit).
Local Abbreviation body2 :=
  (seed_body API_KEY upstream py_str order2 limit connector_limit).
Local Abbreviation loop1 :=
  (seed_loop API_KEY upstream py_str order1 limit connector_limit).
Local Abbreviation loop2 :=
  (seed_loop API_KEY upstream py_str order2 limit connector_limit).
Local Abbreviation working_set_of seed :=
  (local_pmids_of API_KEY upstream py_str connector_limit
     (resolve_seed API_KEY upstream py_str limit seed)).

Lemma seed_body_nodes_Permutation (s_index : nat) (seed : string)
  (st1 st2 : graph_state) :
  NoDup (dict_keys (all_nodes st1)) ->
  Permutation (all_nodes st1) (all_nodes st2) ->
  Permutation (all_nodes (body1 s_index seed st1))
              (all_nodes (body2 s_index seed st2)).
Proof.
  intros Hkeys Hperm. unfold seed_body.
  destruct (resolve_seed API_KEY upstream py_str limit seed) as [|p pmids];
    [assumption|].
  cbv zeta. cbn [all_nodes].
  pose proof (working_set_NoDup API_KEY upstream py_str connector_limit
                (p :: pmids)) as Hnd.
  apply node_loop_Permutation; try assumption.
  - exact (Permutation_NoDup (order1_ok _ Hnd) Hnd).
  - transitivity (local_pmids_of API_KEY upstream py_str connector_limit
                    (p :: pmids)).
    + symmetry. now apply order1_ok.
    + now apply order2_ok.
Qed.

Lemma seed_loop_nodes_Permutation (seeds : list string) :
  forall s_index st1 st2,
    nodes_ok (all_nodes st1) ->
    Permutation (all_nodes st1) (all_nodes st2) ->
    Permutation (all_nodes (loop1 s_index seeds st1))
                (all_nodes (loop2 s_index seeds st2)).
Proof.
  induction seeds as [|seed rest IH]; simpl; intros s_index st1 st2 Hok Hperm.
  - assumption.
  - apply IH.
    + now apply seed_body_ok.
    + apply seed_body_nodes_Permutation; [apply Hok | assumption].
Qed.

Lemma seed_body_agree (s_index : nat) (seed : string) (st : graph_state) :
  order1 (working_set_of seed) = order2 (working_set_of seed) ->
  body1 s_index seed st = body2 s_index seed st.
Proof.
  unfold seed_body. intros Hagree.
  destruct (resolve_seed API_KEY upstream py_str limit seed) as [|p pmids];
    [reflexivity|].
  cbv zeta. now rewrite Hagree.
Qed.

Lemma seed_loop_agree (seeds : list string) :
  (forall seed, In seed seeds ->
     order1 (working_set_of seed) = order2 (working_set_of seed)) ->
  forall s_index st, loop1 s_index seeds st = loop2 s_index seeds st.
Proof.
  induction seeds as [|seed rest IH]; simpl; intros Hagree s_index st.
  - reflexivity.
  - rewrite seed_body_agree by auto. apply IH. auto.
Qed.

(** C7, as the code has it: two runs on the same seeds and limits against
    the same data source return the same nodes, with the same fields, up to
    their order in the list; and they return the same links, up to order,
    when both iterate over the working set of every seed in the same order
    (as two runs in one process do). *)
Theorem C7_rerun_same_graph (seeds : list string) :
  let g1 :=
    build_graph API_KEY upstream py_str order1 limit connector_limit seeds in
  let g2 :=
    build_graph API_KEY upstream py_str order2 limit connector_limit seeds in
  Permutation (fst g1) (fst g2) /\
  ((forall seed, In seed seeds ->
      order1 (working_set_of seed) = order2 (working_set_of seed)) ->
   Permutation (snd g1) (snd g2)).
Proof.
  simpl. split.
  - unfold nodes_of, dict_values. apply Permutation_map.
    apply seed_loop_nodes_Permutation; [|reflexivity].
    split; [constructor | intros k n []].
  - intros Hagree. unfold links_of, nodes_of, build_state.
    rewrite (seed_loop_agree seeds Hagree).
    apply Permutation_flat_map.
    assert (Hnd : NoDup (all_links (loop2 0 seeds
                                       (empty_state))))
      by (apply seed_loop_links_NoDup; constructor).
    transitivity (all_links (loop2 0 seeds empty_state)).
    + symmetry. now apply order1_ok.
    + now apply order2_ok.
Qed.

End Rerun.

(** ** The adapter and the fetchers *)

Section FetcherFacts.

Variable API_KEY : option string.
Variable upstream : string -> dict pval -> reply.
Variable py_str : json -> string.

Local Abbreviation sent params := (with_api_key API_KEY params).
Local Abbreviation get := (_get API_KEY upstream).
Local Abbreviation fetch_value := (fetch API_KEY upstream).

Lemma error_status_raises (r : response) :
  (400 <= status_code r < 600)%Z -> raise_for_status r = Raise.
Proof.
  intros H. unfold raise_for_status.
  replace (400 <=? status_code r)%Z with true by (symmetry; apply Z.leb_le; lia).
  replace (status_code r <? 600)%Z with true by (symmetry; apply Z.ltb_lt; lia).
  reflexivity.
Qed.

(** The result and the trace of [_get] by the outcome of the request: the
    only sleep follows a response whose status is not an HTTP error. *)
Lemma get_outcome_trace (endpoint : string) (params : dict pval) :
  let url := endpoint_url endpoint in
  match upstream url (sent params) with
  | TransportError =>
      get endpoint params = (Raise, [Request url (sent params)])
  | Reply r =>
      if ((400 <=? status_code r) && (status_code r <? 600))%Z
      then get endpoint params = (Raise, [Request url (sent params)])
      else get endpoint params
           = (Ok r, [Request url (sent params); Sleep DELAY])
  end.
Proof.
  unfold _get. cbv zeta.
  destruct (upstream (endpoint_url endpoint) (sent params)) as [|r];
    [reflexivity|].
  unfold raise_for_status.
  now destruct ((400 <=? status_code r) && (status_code r <? 600))%Z.
Qed.

Lemma fetch_json_failure {A : Type} (endpoint : string) (params : dict pval)
  (k : json -> exc A) :
  json_failure (upstream (endpoint_url endpoint) (sent params)) ->
  (r <- fetch_value endpoint params ;; j <- response_json r ;; k j) = Raise.
Proof.
  unfold fetch, _get, json_failure. cbv zeta.
  destruct (upstream (endpoint_url endpoint) (sent params)) as [|r];
    [reflexivity|].
  intros [Hstatus | Hparse].
  - now rewrite error_status_raises.
  - destruct (raise_for_status r); [|reflexivity]. simpl.
    unfold response_json. destruct (content r) as [| j |root]; try reflexivity.
    now destruct (Hparse j).
Qed.

Lemma fetch_xml_failure (endpoint : string) (params : dict pval) :
  xml_failure (upstream (endpoint_url endpoint) (sent params)) ->
  (r <- fetch_value endpoint params ;; fromstring r) = Raise.
Proof.
  unfold fetch, _get, xml_failure. cbv zeta.
  destruct (upstream (endpoint_url endpoint) (sent params)) as [|r];
    [reflexivity|].
  intros [Hstatus | Hparse].
  - now rewrite error_status_raises.
  - destruct (raise_for_status r); [|reflexivity]. simpl.
    unfold fromstring. destruct (content r) as [| j |root]; try reflexivity.
    now destruct (Hparse root).
Qed.

Lemma summary_block_failure (pmid : string) :
  json_failure (upstream (endpoint_url "esummary") (sent (esummary_params pmid))) ->
  summary_block API_KEY upstream pmid = (EmptyString, EmptyString, EmptyString).
Proof.
  intros H. unfold summary_block. now rewrite fetch_json_failure.
Qed.

Lemma efetch_block_failure (pmid title : string) :
  xml_failure (upstream (endpoint_url "efetch") (sent (efetch_params pmid))) ->
  efetch_block API_KEY upstream pmid title = (title, EmptyString, []).
Proof.
  intros H. unfold efetch_block. now rewrite fetch_xml_failure.
Qed.

(** C4: whatever the input, a transport error, an HTTP error status or an
    unparsable body makes [search_term_to_pmids] and [get_citations_of]
    return the empty list and [get_article_summary_by_pmid] return the
    record of defaults; each half of the record falls back to its defaults
    when its own request fails.  The three functions are total: their
    handlers enclose every statement that can raise. *)
Theorem C4_failures_give_empty (term pmid direction : string) (retmax limit : Z) :
  (json_failure (upstream (endpoint_url "esearch")
                          (sent (esearch_params term retmax))) ->
   search_term_to_pmids API_KEY upstream py_str term retmax = []) /\
  (json_failure (upstream (endpoint_url "elink")
                          (sent (elink_params pmid (linkname_of direction)))) ->
   get_citations_of API_KEY upstream py_str pmid direction limit = []) /\
  (json_failure (upstream (endpoint_url "esummary")
                          (sent (esummary_params pmid))) ->
   xml_failure (upstream (endpoint_url "efetch") (sent (efetch_params pmid))) ->
   get_article_summary_by_pmid API_KEY upstream pmid = default_article pmid) /\
  (json_failure (upstream (endpoint_url "esummary")
                          (sent (esummary_params pmid))) ->
   let meta := get_article_summary_by_pmid API_KEY upstream pmid in
   meta_journal meta = EmptyString /\ meta_pubdate meta = EmptyString) /\
  (xml_failure (upstream (endpoint_url "efetch") (sent (efetch_params pmid))) ->
   let meta := get_article_summary_by_pmid API_KEY upstream pmid in
   meta_abstract meta = "(No abstract available.)"%string /\ meta_mesh meta = []).
Proof.
  split; [|split; [|split; [|split]]].
  - intros H. unfold search_term_to_pmids, search_body.
    rewrite fetch_json_failure by assumption. now destruct (str_truthy term).
  - intros H. unfold get_citations_of, citations_out.
    rewrite fetch_json_failure by assumption. now destruct (str_truthy pmid).
  - intros Hj Hx. unfold get_article_summary_by_pmid.
    rewrite summary_block_failure, efetch_block_failure by assumption.
    reflexivity.
  - intros H. cbv zeta. unfold get_article_summary_by_pmid.
    rewrite summary_block_failure by assumption.
    now destruct (efetch_block API_KEY upstream pmid EmptyString) as [[t a] m].
  - intros H. cbv zeta. unfold get_article_summary_by_pmid.
    destruct (summary_block API_KEY upstream pmid) as [[t j] d].
    now rewrite efetch_block_failure.
Qed.

(** *** The title *)

Lemma article_title (pmid : string) :
  meta_title (get_article_summary_by_pmid API_KEY upstream pmid)
  = final_title pmid (resolved_title API_KEY upstream pmid).
Proof.
  unfold get_article_summary_by_pmid, resolved_title.
  destruct (summary_block API_KEY upstream pmid) as [[t j] d].
  now destruct (efetch_block API_KEY upstream pmid t) as [[t' a] m].
Qed.

Lemma slice_to_nonempty (n : nat) (t : string) (c : ascii) :
  String.get n t = Some c -> slice_to (S n) t <> EmptyString.
Proof. destruct t; simpl; [destruct n|]; discriminate. Qed.

Lemma rstrip_cons (c : ascii) (s : string) :
  rstrip (String c s)
  = match rstrip s with
    | EmptyString => if is_space c then EmptyString else String c EmptyString
    | String _ _ as r => String c r
    end.
Proof. reflexivity. Qed.

(** A slice that ends on a character other than white space is left alone
    by [rstrip]. *)
Lemma rstrip_slice (n : nat) :
  forall (t : string) (c : ascii),
    String.get n t = Some c -> is_space c = false ->
    rstrip (slice_to (S n) t) = slice_to (S n) t.
Proof.
  induction n as [|n IH]; intros [|a t] c Hget Hc; try discriminate.
  - simpl in Hget. injection Hget as ->. simpl. now rewrite Hc.
  - simpl in Hget. change (slice_to (S (S n)) (String a t))
      with (String a (slice_to (S n) t)).
    rewrite rstrip_cons, (IH t c Hget Hc).
    pose proof (slice_to_nonempty n t c Hget) as Hne.
    now destruct (slice_to (S n) t).
Qed.

(** C5, as the code has it: a resolved title of more than 800 characters is
    stored as its first 200 characters, stripped of the white space they end
    with, followed by three dots; these are exactly the first 200 characters
    and three dots when the 200th character is not white space. *)
Theorem C5_long_title_cut (pmid : string) :
  let title := resolved_title API_KEY upstream pmid in
  let stored := meta_title (get_article_summary_by_pmid API_KEY upstream pmid) in
  800 < String.length title ->
  stored = (rstrip (slice_to 200 title) ++ "...")%string /\
  (forall c, String.get 199 title = Some c -> is_space c = false ->
             stored = (slice_to 200 title ++ "...")%string).
Proof.
  intros title stored Hlen.
  assert (Hstored : stored = (rstrip (slice_to 200 title) ++ "...")%string).
  { unfold stored. rewrite article_title. fold title. unfold final_title.
    destruct title as [|a t] eqn:Ht; [simpl in Hlen; lia|].
    cbn [str_truthy negb]. apply Nat.ltb_lt in Hlen. now rewrite Hlen. }
  split; [exact Hstored|].
  intros c Hget Hc. rewrite Hstored. f_equal. now apply (rstrip_slice 199 title c).
Qed.

(** *** The citation list *)

Lemma set_add_length (i : string) (s : pyset) :
  List.length (set_add i s) = List.length s \/
  List.length (set_add i s) = S (List.length s).
Proof.
  unfold set_add. destruct (str_in i s); [now left|].
  right. rewrite length_app. simpl. lia.
Qed.

Lemma fold_set_add_extends (out : list string) :
  forall s, exists extra,
    fold_left (fun acc r => set_add r acc) out s = s ++ extra.
Proof.
  induction out as [|i out IH]; simpl; intros s.
  - exists []. now rewrite app_nil_r.
  - destruct (IH (set_add i s)) as [extra ->]. unfold set_add.
    destruct (str_in i s); [now exists extra|].
    exists (i :: extra). now rewrite <- app_assoc.
Qed.

(** Below its limit, the loop of lines 126-131 computes the first [limit]
    elements of the list without its repetitions. *)
Lemma seen_loop_firstn (out : list string) :
  forall (seen : list string) (limit : Z),
    (Z.of_nat (List.length seen) < limit)%Z ->
    seen_loop out seen limit
    = firstn (Z.to_nat limit) (fold_left (fun acc r => set_add r acc) out seen).
Proof.
  induction out as [|i out IH]; intros seen limit Hlt.
  - simpl. symmetry. apply firstn_all2. lia.
  - simpl. fold (set_add i seen).
    replace (if negb (str_in i seen) then seen ++ [i] else seen)
      with (set_add i seen) by (unfold set_add; now destruct (str_in i seen)).
    destruct (limit <=? Z.of_nat (List.length (set_add i seen)))%Z eqn:E.
    + apply Z.leb_le in E.
      destruct (fold_set_add_extends out (set_add i seen)) as [extra ->].
      assert (Hn : Z.to_nat limit = List.length (set_add i seen))
        by (destruct (set_add_length i seen); lia).
      rewrite Hn, firstn_app, firstn_all, Nat.sub_diag. simpl.
      now rewrite app_nil_r.
    + apply Z.leb_gt in E. now apply IH.
Qed.

(** X10: For a limit of at least one, [get_citations_of] returns at most [limit]
    identifiers without repetition: the first ones of the flattened
    response, in the order of their first occurrence. *)
Lemma get_citations_of_within_limit (pmid direction : string) (limit : Z) :
  (1 <= limit)%Z ->
  let seen := get_citations_of API_KEY upstream py_str pmid direction limit in
  NoDup seen /\
  (Z.of_nat (List.length seen) <= limit)%Z /\
  (forall out,
     pmid <> EmptyString ->
     citations_out API_KEY upstream py_str pmid direction = Ok out ->
     seen = firstn (Z.to_nat limit) (set_of_list out)).
Proof.
  intros Hlimit. cbv zeta. unfold get_citations_of.
  destruct (str_truthy pmid) eqn:Hpmid; simpl.
  - destruct (citations_out API_KEY upstream py_str pmid direction)
      as [out|]; simpl.
    + rewrite seen_loop_firstn by (simpl; lia). fold (set_of_list out).
      split; [|split].
      * pose proof (set_of_list_NoDup out) as Hnd.
        rewrite <- (firstn_skipn (Z.to_nat limit) (set_of_list out)) in Hnd.
        now apply NoDup_app_remove_r in Hnd.
      * pose proof (firstn_le_length (Z.to_nat limit) (set_of_list out)). lia.
      * now intros out' _ [= <-].
    + repeat split; [constructor | simpl; lia | discriminate].
  - repeat split; [constructor | simpl; lia |].
    intros out Hne. apply str_truthy_false in Hpmid. contradiction.
Qed.

End FetcherFacts.

(** ** The request *)

Lemma lstrip_empty_iff (s : string) :
  lstrip s = EmptyString <-> all_chars is_space s = true.
Proof.
  induction s as [|c s IH]; simpl; [tauto|].
  destruct (is_space c); simpl; [exact IH | split; discriminate].
Qed.

Lemma lstrip_head (s : string) (c : ascii) (s' : string) :
  lstrip s = String c s' -> is_space c = false.
Proof.
  induction s as [|a s IH]; simpl; [discriminate|].
  destruct (is_space a) eqn:E; [exact IH | now intros [= <- _]].
Qed.

Lemma rstrip_nonempty (c : ascii) (s : string) :
  is_space c = false -> rstrip (String c s) <> EmptyString.
Proof.
  intros Hc. rewrite rstrip_cons, Hc. now destruct (rstrip s).
Qed.

(** Stripping leaves nothing exactly when the string is all white space. *)
Lemma strip_empty_iff (s : string) :
  strip s = EmptyString <-> all_chars is_space s = true.
Proof.
  rewrite <- lstrip_empty_iff. unfold strip. split.
  - destruct (lstrip s) as [|c s'] eqn:E; [reflexivity|].
    intros H. now apply rstrip_nonempty in H; [|apply (lstrip_head s c s')].
  - now intros ->.
Qed.

Lemma parse_seeds_empty_iff (seeds_raw : string) :
  parse_seeds seeds_raw = [] <->
  forall piece, In piece (split_on "," seeds_raw) ->
                all_chars is_space piece = true.
Proof.
  unfold parse_seeds. induction (split_on "," seeds_raw) as [|p ps IH]; simpl.
  - split; [now intros _ piece [] | reflexivity].
  - destruct (str_truthy (strip p)) eqn:E; simpl.
    + split; [discriminate|]. intros H.
      assert (Hp : strip p = EmptyString) by (apply strip_empty_iff; auto).
      rewrite Hp in E. discriminate.
    + rewrite IH. apply str_truthy_false, strip_empty_iff in E.
      split; [intros H piece [<-|Hin]; auto | auto].
Qed.

Section RequestFacts.

Variable API_KEY : option string.
Variable upstream : string -> dict pval -> reply.
Variable py_str : json -> string.
Variable py_int : string -> option Z.
Variable order : pyset -> list string.

Local Abbreviation handler := (api_graph API_KEY upstream py_str py_int order).

(** C8: the answer is the 400 error with its fixed message exactly when the
    seed list, split at commas and stripped, is empty, that is when every
    piece is white space; otherwise it is a 200 answer with a graph,
    whatever the two limits are; and a limit that is missing, or on which
    [int] raises, is 20. *)
Theorem C8_only_error_is_no_seeds (args : dict string) :
  let seeds_raw :=
    match dict_get "seeds" args with Some s => s | None => EmptyString end in
  (handler args = (ErrorBody "no seeds provided", 400%Z) <->
   parse_seeds seeds_raw = []) /\
  (parse_seeds seeds_raw = [] <->
   forall piece, In piece (split_on "," seeds_raw) ->
                 all_chars is_space piece = true) /\
  (parse_seeds seeds_raw <> [] ->
   exists nodes links, handler args = (GraphBody nodes links, 200%Z)) /\
  (forall name, dict_get name args = None -> int_arg py_int args name = 20%Z) /\
  (forall name s, dict_get name args = Some s -> py_int s = None ->
                  int_arg py_int args name = 20%Z).
Proof.
  intros seeds_raw. unfold api_graph. fold seeds_raw.
  split; [|split; [|split; [|split]]].
  - destruct (parse_seeds seeds_raw) as [|seed seeds]; [tauto|].
    unfold build_graph. split; discriminate.
  - apply parse_seeds_empty_iff.
  - destruct (parse_seeds seeds_raw) as [|seed seeds]; [congruence|].
    intros _. unfold build_graph. eauto.
  - intros name Hname. unfold int_arg. now rewrite Hname.
  - intros name s Hname Hint. unfold int_arg. now rewrite Hname, Hint.
Qed.

(** With seeds, the answer carries the graph built from the parsed seeds
    and limits. *)
Lemma api_graph_builds (args : dict string) :
  let seeds_raw :=
    match dict_get "seeds" args with Some s => s | None => EmptyString end in
  parse_seeds seeds_raw <> [] ->
  handler args
  = (let graph :=
       build_graph API_KEY upstream py_str order
         (int_arg py_int args "limit") (int_arg py_int args "connector_limit")
         (parse_seeds seeds_raw) in
     (GraphBody (fst graph) (snd graph), 200%Z)).
Proof.
  intros seeds_raw Hseeds. unfold api_graph. fold seeds_raw.
  destruct (parse_seeds seeds_raw) as [|seed seeds]; [congruence|].
  reflexivity.
Qed.

End RequestFacts.

(** * Examples *)

Example split_arrow_pair : split_arrow "12->34" = ["12"; "34"].
Proof. reflexivity. Qed.

Example split_arrow_greedy : split_arrow "a-->>b->" = ["a-"; ">b"; EmptyString].
Proof. reflexivity. Qed.

Example parse_seeds_blanks : parse_seeds " flu , ,123," = ["flu"; "123"].
Proof. reflexivity. Qed.

Example parse_seeds_nothing : parse_seeds " , ," = [].
Proof. reflexivity. Qed.

Example seen_loop_limit_two :
  seen_loop ["7"; "8"; "7"; "9"] [] 2 = ["7"; "8"].
Proof. reflexivity. Qed.

Example rstrip_inner : rstrip "ab  c  " = "ab  c"%string.
Proof. reflexivity. Qed.

Lemma insertion_order_ok : set_iteration insertion_order.
Proof. intros s _. apply Permutation_refl. Qed.

Lemma reverse_order_ok : set_iteration reverse_order.
Proof. intros s _. apply Permutation_rev. Qed.

(** An article with one reference: the link joins two nodes. *)
Lemma C1_witness :
  set_iteration insertion_order /\
  let graph :=
    build_graph None (stub_links ["7"]) str_scalar insertion_order 20 20 ["1"] in
  (forall l, In l (snd graph) ->
     In (l_source l) (map n_id (fst graph)) /\
     In (l_target l) (map n_id (fst graph))) /\
  NoDup (map endpoints (snd graph)).
Proof.
  split; [exact insertion_order_ok|].
  exact (C1_links_join_nodes None (stub_links ["7"]) str_scalar insertion_order
           20 20 insertion_order_ok ["1"]).
Defined.

(** Two search terms that both find article 1. *)
Lemma C2_witness :
  set_iteration insertion_order /\
  discovered None (stub_search ["1"]) str_scalar 20 20 "flu" "1" /\
  discovered None (stub_search ["1"]) str_scalar 20 20 "cold" "1" /\
  (exists n,
     In n (fst (build_graph None (stub_search ["1"]) str_scalar insertion_order
                  20 20 ([] ++ "flu" :: [] ++ "cold" :: []))) /\
     n_id n = "1" /\
     n_shared n = true /\
     In "flu" (n_seedGroups n) /\
     In "cold" (n_seedGroups n) /\
     n_color n = shared_color) /\
  (forall seeds more n,
     dict_get "1" (all_nodes (build_state None (stub_search ["1"]) str_scalar
                                insertion_order 20 20 seeds)) = Some n ->
     n_shared n = true ->
     exists n',
       dict_get "1" (all_nodes (build_state None (stub_search ["1"]) str_scalar
                                  insertion_order 20 20 (seeds ++ more)))
       = Some n' /\
       n_shared n' = true).
Proof.
  assert (Hflu : discovered None (stub_search ["1"]) str_scalar 20 20 "flu" "1")
    by (vm_compute; now left).
  assert (Hcold : discovered None (stub_search ["1"]) str_scalar 20 20 "cold" "1")
    by (vm_compute; now left).
  split; [exact insertion_order_ok|]. split; [exact Hflu|].
  split; [exact Hcold|].
  exact (C2_shared_across_seeds None (stub_search ["1"]) str_scalar
           insertion_order 20 20 insertion_order_ok [] [] [] "flu" "cold" "1"
           Hflu Hcold).
Defined.

(** C3 at a limit of zero: of the two references of the article, one is
    returned, although the limit allows none. *)
Theorem C3_limit_zero_returns_one :
  let seen :=
    get_citations_of None (stub_links ["7"; "8"]) str_scalar "1" "refs" 0 in
  seen = ["7"] /\ (0 < Z.of_nat (List.length seen))%Z.
Proof. split; reflexivity. Qed.

(** A source that is down. *)
Lemma C4_witness :
  search_term_to_pmids None stub_down str_scalar "flu" 20 = [] /\
  get_citations_of None stub_down str_scalar "1" "refs" 20 = [] /\
  get_article_summary_by_pmid None stub_down "1" = default_article "1".
Proof.
  destruct (C4_failures_give_empty None stub_down str_scalar "flu" "1" "refs"
              20 20) as (Hsearch & Hlinks & Hmeta & _).
  split; [exact (Hsearch I)|]. split; [exact (Hlinks I) | exact (Hmeta I I)].
Defined.

(** A title of 900 characters with a space in 200th place is stored as 199
    characters and three dots. *)
Lemma C5_counterexample :
  let title := resolved_title None (stub_summary "1" title_900_space) "1" in
  let stored :=
    meta_title (get_article_summary_by_pmid None
                  (stub_summary "1" title_900_space) "1") in
  String.length title = 900 /\
  String.length stored = 202 /\
  stored <> (slice_to 200 title ++ "...")%string.
Proof.
  cbv zeta. split; [vm_compute; reflexivity|].
  split; [vm_compute; reflexivity|].
  apply String.eqb_neq. vm_compute. reflexivity.
Qed.

(** A title of 900 letters. *)
Lemma C5_witness :
  let title := resolved_title None (stub_summary "1" title_900) "1" in
  let stored :=
    meta_title (get_article_summary_by_pmid None (stub_summary "1" title_900) "1") in
  800 < String.length title /\
  stored = (rstrip (slice_to 200 title) ++ "...")%string /\
  (forall c, String.get 199 title = Some c -> is_space c = false ->
             stored = (slice_to 200 title ++ "...")%string).
Proof.
  assert (Hlen : 800 < String.length
                         (resolved_title None (stub_summary "1" title_900) "1"))
    by (apply Nat.ltb_lt; vm_compute; reflexivity).
  split; [exact Hlen|].
  exact (C5_long_title_cut None (stub_summary "1" title_900) "1" Hlen).
Defined.

(** An article title without sub-elements tests false, so [or] moves on to
    the plain title. *)
Lemma art_title_el_childless (root e : element) :
  find_desc "ArticleTitle" root = Some e -> el_children e = [] ->
  art_title_el root = find_desc "Title" root.
Proof.
  intros Hfind Hchildren. unfold art_title_el, el_truthy.
  now rewrite Hfind, Hchildren.
Qed.

(** C6 on an article whose title is plain text: the journal title is
    stored, and without a journal title the placeholder. *)
Theorem C6_plain_article_title_skipped :
  meta_title (get_article_summary_by_pmid None (stub_efetch xml_with_journal) "1")
  = "Some Journal"%string /\
  meta_title (get_article_summary_by_pmid None (stub_efetch xml_title_only) "1")
  = "(Untitled article, PMID 1)"%string.
Proof. split; reflexivity. Qed.

(** Two runs that iterate over the working set in opposite orders. *)
Lemma C7_counterexample :
  set_iteration insertion_order /\
  set_iteration reverse_order /\
  let g1 := build_graph None (stub_search ["1"; "2"]) str_scalar
              insertion_order 20 20 ["flu"] in
  let g2 := build_graph None (stub_search ["1"; "2"]) str_scalar
              reverse_order 20 20 ["flu"] in
  In ("1", "2") (map endpoints (snd g1)) /\
  ~ In ("1", "2") (map endpoints (snd g2)).
Proof.
  split; [exact insertion_order_ok|]. split; [exact reverse_order_ok|].
  vm_compute. split; [now left|]. intros [H | []]. discriminate H.
Qed.

Lemma C7_witness :
  set_iteration insertion_order /\
  set_iteration reverse_order /\
  let g1 := build_graph None (stub_search ["1"; "2"]) str_scalar
              insertion_order 20 20 ["flu"] in
  let g2 := build_graph None (stub_search ["1"; "2"]) str_scalar
              reverse_order 20 20 ["flu"] in
  Permutation (fst g1) (fst g2) /\
  ((forall seed, In seed ["flu"] ->
      insertion_order
        (local_pmids_of None (stub_search ["1"; "2"]) str_scalar 20
           (resolve_seed None (stub_search ["1"; "2"]) str_scalar 20 seed))
      = reverse_order
          (local_pmids_of None (stub_search ["1"; "2"]) str_scalar 20
             (resolve_seed None (stub_search ["1"; "2"]) str_scalar 20 seed))) ->
   Permutation (snd g1) (snd g2)).
Proof.
  split; [exact insertion_order_ok|]. split; [exact reverse_order_ok|].
  exact (C7_rerun_same_graph None (stub_search ["1"; "2"]) str_scalar 20 20
           insertion_order reverse_order insertion_order_ok reverse_order_ok
           ["flu"]).
Defined.

(** One seed and a limit that is no number. *)
Lemma C8_witness :
  parse_seeds "1" <> [] /\
  (exists nodes links,
     api_graph None stub_down str_scalar int_digits insertion_order
       [("seeds", "1"); ("limit", "abc")]
     = (GraphBody nodes links, 200%Z)) /\
  int_arg int_digits [("seeds", "1"); ("limit", "abc")] "connector_limit" = 20%Z /\
  int_arg int_digits [("seeds", "1"); ("limit", "abc")] "limit" = 20%Z.
Proof.
  assert (Hseeds : parse_seeds "1" <> []) by (vm_compute; discriminate).
  destruct (C8_only_error_is_no_seeds None stub_down str_scalar int_digits
              insertion_order [("seeds", "1"); ("limit", "abc")])
    as (_ & _ & Hgraph & Hmissing & Hbad).
  split; [exact Hseeds|]. split; [exact (Hgraph Hseeds)|].
  split.
  - exact (Hmissing "connector_limit" eq_refl).
  - exact (Hbad "limit" "abc" eq_refl eq_refl).
Defined.

(** C9 on a transport error and on a status 500: [_get] raises with the
    request as its only event, so the delay that follows a successful call
    is not slept. *)
Theorem C9_failure_skips_sleep :
  _get None stub_down "esearch" (esearch_params "flu" 20)
  = (Raise, [Request (endpoint_url "esearch") (esearch_params "flu" 20)]) /\
  _get None (stub_status 500) "esearch" (esearch_params "flu" 20)
  = (Raise, [Request (endpoint_url "esearch") (esearch_params "flu" 20)]) /\
  snd (_get None (stub_status 200) "esearch" (esearch_params "flu" 20))
  = [Request (endpoint_url "esearch") (esearch_params "flu" 20); Sleep DELAY].
Proof. repeat split; reflexivity. Qed.

(** * Further properties *)

(** ** Splitting, joining and stripping *)

Lemma split_on_nonempty (sep : ascii) (s : string) : split_on sep s <> [].
Proof.
  destruct s as [|c s]; simpl; [discriminate|].
  destruct (Ascii.eqb c sep); [discriminate|].
  unfold cons_head. destruct (split_on sep s); discriminate.
Qed.

(** Joining the pieces of a split with the separator gives the string
    back. *)
Theorem join_split_on (sep : ascii) (s : string) :
  join (String sep EmptyString) (split_on sep s) = s.
Proof.
  induction s as [|c s IH]; [reflexivity|]. simpl split_on.
  destruct (Ascii.eqb c sep) eqn:E.
  - apply Ascii.eqb_eq in E. subst c.
    destruct (split_on sep s) as [|p ps] eqn:Hs.
    + now apply split_on_nonempty in Hs.
    + change (join (String sep EmptyString) (EmptyString :: p :: ps))
        with (String sep (join (String sep EmptyString) (p :: ps))).
      now rewrite IH.
  - rewrite join_cons_head by apply split_on_nonempty. now rewrite IH.
Qed.

Lemma lacks_cons (c a : ascii) (s : string) :
  lacks c (String a s) <-> a <> c /\ lacks c s.
Proof.
  unfold lacks. simpl. rewrite andb_true_iff, negb_true_iff.
  now rewrite Ascii.eqb_neq.
Qed.

Lemma split_on_pieces_lack (sep : ascii) (s : string) :
  Forall (lacks sep) (split_on sep s).
Proof.
  induction s as [|c s IH]; simpl.
  - constructor; [reflexivity | constructor].
  - destruct (Ascii.eqb c sep) eqn:E.
    + constructor; [reflexivity | assumption].
    + apply Ascii.eqb_neq in E. unfold cons_head.
      destruct (split_on sep s) as [|p ps].
      * constructor; [|constructor]. apply lacks_cons. now split.
      * inversion IH; subst. constructor; [|assumption].
        apply lacks_cons. now split.
Qed.

Lemma split_on_lacking (sep : ascii) (p : string) :
  lacks sep p -> split_on sep p = [p].
Proof.
  induction p as [|c p IH]; [reflexivity|]. intros H.
  apply lacks_cons in H as [Hc Hp]. simpl.
  apply Ascii.eqb_neq in Hc. now rewrite Hc, IH.
Qed.

Lemma split_on_piece_then (sep : ascii) (p rest : string) :
  lacks sep p ->
  split_on sep (p ++ String sep rest)%string = p :: split_on sep rest.
Proof.
  induction p as [|c p IH]; intros H.
  - simpl. now rewrite Ascii.eqb_refl.
  - apply lacks_cons in H as [Hc Hp]. simpl.
    apply Ascii.eqb_neq in Hc. now rewrite Hc, IH.
Qed.

(** Splitting a join of pieces that lack the separator gives the pieces
    back. *)
Lemma split_on_join (sep : ascii) (parts : list string) :
  parts <> [] -> Forall (lacks sep) parts ->
  split_on sep (join (String sep EmptyString) parts) = parts.
Proof.
  induction parts as [|p [|q ps] IH]; intros Hne Hall; [congruence| |].
  - inversion Hall; subst. now apply split_on_lacking.
  - inversion Hall as [|? ? Hp Hrest]; subst.
    change (join (String sep EmptyString) (p :: q :: ps))
      with (p ++ String sep (join (String sep EmptyString) (q :: ps)))%string.
    rewrite split_on_piece_then by assumption. f_equal.
    apply IH; [discriminate | assumption].
Qed.

Lemma rstrip_rstrip (s : string) : rstrip (rstrip s) = rstrip s.
Proof.
  induction s as [|c s IH]; [reflexivity|]. rewrite rstrip_cons.
  destruct (rstrip s) as [|a r] eqn:E.
  - destruct (is_space c) eqn:Hc; [reflexivity|].
    rewrite rstrip_cons. simpl. now rewrite Hc.
  - rewrite rstrip_cons, IH. reflexivity.
Qed.

Lemma lstrip_lstrip (s : string) : lstrip (lstrip s) = lstrip s.
Proof.
  induction s as [|c s IH]; [reflexivity|]. simpl.
  destruct (is_space c) eqn:Hc; [assumption|]. simpl. now rewrite Hc.
Qed.

Lemma lstrip_rstrip_head (c : ascii) (s : string) :
  is_space c = false -> lstrip (rstrip (String c s)) = rstrip (String c s).
Proof.
  intros Hc. rewrite rstrip_cons. destruct (rstrip s); rewrite ?Hc; simpl;
    now rewrite Hc.
Qed.

(** A stripped string has no white space left at either end. *)
Lemma strip_fixed (s : string) :
  lstrip (strip s) = strip s /\ rstrip (strip s) = strip s.
Proof.
  unfold strip. split; [|apply rstrip_rstrip].
  destruct (lstrip s) as [|c t] eqn:E; [reflexivity|].
  apply lstrip_rstrip_head. now apply (lstrip_head s c t).
Qed.

Lemma strip_strip (s : string) : strip (strip s) = strip s.
Proof.
  destruct (strip_fixed s) as [Hl Hr]. unfold strip at 1. now rewrite Hl.
Qed.

Lemma all_chars_lstrip (p : ascii -> bool) (s : string) :
  all_chars p s = true -> all_chars p (lstrip s) = true.
Proof.
  induction s as [|c s IH]; simpl; [reflexivity|]. intros H.
  apply andb_true_iff in H as [Hc Hs].
  destruct (is_space c); [auto | simpl; now rewrite Hc, Hs].
Qed.

Lemma all_chars_rstrip (p : ascii -> bool) (s : string) :
  all_chars p s = true -> all_chars p (rstrip s) = true.
Proof.
  induction s as [|c s IH]; [reflexivity|]. intros H. simpl in H.
  apply andb_true_iff in H as [Hc Hs]. rewrite rstrip_cons.
  specialize (IH Hs). destruct (rstrip s) as [|a r].
  - destruct (is_space c); simpl; [reflexivity | now rewrite Hc].
  - simpl. simpl in IH. now rewrite Hc, IH.
Qed.

Lemma all_chars_strip (p : ascii -> bool) (s : string) :
  all_chars p s = true -> all_chars p (strip s) = true.
Proof. intros H. now apply all_chars_rstrip, all_chars_lstrip. Qed.

(** X1: Every seed read from the query string is clean: not empty, stripped,
    and without comma. *)
Theorem parse_seeds_clean (seeds_raw : string) :
  Forall clean_seed (parse_seeds seeds_raw).
Proof.
  unfold parse_seeds. apply Forall_forall. intros seed Hin.
  apply in_map_iff in Hin as [piece [<- Hin]].
  apply filter_In in Hin as [Hin Htruthy]. repeat split.
  - intros Hempty. rewrite Hempty in Htruthy. discriminate.
  - apply strip_strip.
  - apply all_chars_strip.
    pose proof (split_on_pieces_lack "," seeds_raw) as Hall.
    rewrite Forall_forall in Hall. now apply Hall.
Qed.

(** X2: Clean seeds joined by commas are read back as they are. *)
Theorem parse_seeds_join (seeds : list string) :
  Forall clean_seed seeds -> parse_seeds (join "," seeds) = seeds.
Proof.
  intros Hclean. destruct seeds as [|s seeds]; [reflexivity|].
  unfold parse_seeds. rewrite split_on_join.
  - induction Hclean as [|x l (Hne & Hstrip & _) _ IH]; [reflexivity|].
    cbn [filter]. rewrite Hstrip. destruct x as [|c x]; [congruence|].
    cbn [str_truthy map]. now rewrite Hstrip, IH.
  - discriminate.
  - eapply Forall_impl; [|exact Hclean]. now intros x (_ & _ & H).
Qed.

(** ** Edge keys *)

Lemma split_arrow_cons2 (c c2 : ascii) (s2 : string) :
  split_arrow (String c (String c2 s2))
  = if Ascii.eqb c "-" && Ascii.eqb c2 ">"
    then EmptyString :: split_arrow s2
    else cons_head c (split_arrow (String c2 s2)).
Proof. reflexivity. Qed.

Lemma split_arrow_lacking (b : string) : lacks ">" b -> split_arrow b = [b].
Proof.
  induction b as [|c b IH]; [reflexivity|]. intros H.
  apply lacks_cons in H as [_ Hb]. destruct b as [|c2 b2]; [reflexivity|].
  rewrite split_arrow_cons2. pose proof Hb as Hb'.
  apply lacks_cons in Hb' as [Hc2 _]. apply Ascii.eqb_neq in Hc2.
  rewrite Hc2, andb_false_r, (IH Hb). reflexivity.
Qed.

Lemma arrow_tail_nonempty (a b : string) :
  (a ++ "->" ++ b)%string <> EmptyString.
Proof. destruct a; discriminate. Qed.

(** X3: The key of a pair splits back into the pair when the source has no
    hyphen and the target no closing angle bracket. *)
Theorem edge_key_split (a b : string) :
  lacks "-" a -> lacks ">" b -> split_arrow (edge_key a b) = [a; b].
Proof.
  unfold edge_key. intros Ha Hb. induction a as [|c a IH].
  - simpl. now rewrite split_arrow_lacking.
  - apply lacks_cons in Ha as [Hc Ha]. apply Ascii.eqb_neq in Hc.
    specialize (IH Ha).
    change (String c a ++ "->" ++ b)%string
      with (String c (a ++ "->" ++ b)%string).
    destruct (a ++ "->" ++ b)%string as [|c2 s2] eqn:E;
      [now apply arrow_tail_nonempty in E|].
    rewrite split_arrow_cons2, Hc, IH. reflexivity.
Qed.

Lemma cons_head_length (c : ascii) (l : list string) :
  l <> [] -> List.length (cons_head c l) = List.length l.
Proof. destruct l; [congruence | reflexivity]. Qed.

Lemma split_arrow_two (x y : string) :
  2 <= List.length (split_arrow (x ++ "->" ++ y)%string).
Proof.
  induction x as [|c x IH].
  - simpl. pose proof (split_arrow_nonempty y).
    destruct (split_arrow y); [congruence | simpl; lia].
  - change (String c x ++ "->" ++ y)%string
      with (String c (x ++ "->" ++ y)%string).
    destruct (x ++ "->" ++ y)%string as [|c2 s2] eqn:E;
      [now apply arrow_tail_nonempty in E|].
    rewrite split_arrow_cons2.
    destruct (Ascii.eqb c "-" && Ascii.eqb c2 ">").
    + pose proof (split_arrow_nonempty s2).
      destruct (split_arrow s2); [congruence | simpl; lia].
    + rewrite cons_head_length by apply split_arrow_nonempty. exact IH.
Qed.

(** A key that splits in two was made of its two pieces. *)
Lemma split_edge_key_inv (a b : string) :
  forall s t, split_arrow (edge_key a b) = [s; t] -> a = s /\ b = t.
Proof.
  unfold edge_key. induction a as [|c a IH]; intros s t Hsplit.
  - simpl in Hsplit. injection Hsplit as <- Hb. split; [reflexivity|].
    rewrite <- (join_split_arrow b), Hb. reflexivity.
  - change (String c a ++ "->" ++ b)%string
      with (String c (a ++ "->" ++ b)%string) in Hsplit.
    destruct (a ++ "->" ++ b)%string as [|c2 s2] eqn:E;
      [now apply arrow_tail_nonempty in E|].
    rewrite split_arrow_cons2 in Hsplit.
    destruct (Ascii.eqb c "-" && Ascii.eqb c2 ">") eqn:Harrow.
    + exfalso. injection Hsplit as _ Hs2.
      apply andb_true_iff in Harrow as [_ Hc2]. apply Ascii.eqb_eq in Hc2.
      subst c2. destruct a as [|c3 a]; [discriminate E|].
      simpl in E. injection E as _ E.
      pose proof (split_arrow_two a b) as Htwo.
      change (a ++ "->" ++ b)%string
        with (a ++ String "-" (String ">" b))%string in Htwo.
      rewrite E, Hs2 in Htwo. simpl in Htwo. lia.
    + destruct (split_arrow (String c2 s2)) as [|p ps] eqn:Hrec;
        [now apply split_arrow_nonempty in Hrec|].
      simpl in Hsplit. injection Hsplit as <- ->.
      destruct (IH p t eq_refl) as [-> ->]. auto.
Qed.

(** ** More on the adapter and the fetchers *)

Lemma append_nonempty_r (s1 s2 : string) :
  s2 <> EmptyString -> (s1 ++ s2)%string <> EmptyString.
Proof. destruct s1; [trivial | discriminate]. Qed.

Lemma length_append_str (s1 s2 : string) :
  String.length (s1 ++ s2) = String.length s1 + String.length s2.
Proof. induction s1 as [|c s1 IH]; simpl; [reflexivity | now rewrite IH]. Qed.

Lemma rstrip_length (s : string) : String.length (rstrip s) <= String.length s.
Proof.
  induction s as [|c s IH]; [apply Nat.le_refl|]. rewrite rstrip_cons.
  destruct (rstrip s) as [|a r].
  - destruct (is_space c); simpl; lia.
  - simpl in *. lia.
Qed.

Lemma slice_to_length (n : nat) (s : string) : String.length (slice_to n s) <= n.
Proof.
  revert s. induction n as [|n IH]; intros [|c s]; simpl; try lia.
  specialize (IH s). lia.
Qed.

Section FetcherMore.

Variable API_KEY : option string.
Variable upstream : string -> dict pval -> reply.
Variable py_str : json -> string.

Local Abbreviation sent params := (with_api_key API_KEY params).
Local Abbreviation summary := (get_article_summary_by_pmid API_KEY upstream).

(** X4: What [_get] sends: one request, to the address of the endpoint, with
    the caller's parameters and, when a key is configured, the key under
    [api_key]; the only other event is the sleep. *)
Theorem get_sends_key (endpoint : string) (params : dict pval) :
  (forall key, API_KEY = Some key -> key <> EmptyString ->
               dict_get "api_key" (sent params) = Some (PStr key)) /\
  (forall k, k <> "api_key"%string ->
             dict_get k (sent params) = dict_get k params) /\
  (API_KEY = None \/ API_KEY = Some EmptyString -> sent params = params) /\
  exists rest,
    snd (_get API_KEY upstream endpoint params)
    = Request (endpoint_url endpoint) (sent params) :: rest /\
    (rest = [] \/ rest = [Sleep DELAY]).
Proof.
  unfold with_api_key. split; [|split; [|split]].
  - intros key -> Hkey. destruct key; [congruence|]. simpl.
    now rewrite dict_get_set.
  - intros k Hk. destruct API_KEY as [key|]; [|reflexivity].
    destruct (str_truthy key); [|reflexivity].
    rewrite dict_get_set. apply String.eqb_neq in Hk. now rewrite Hk.
  - now intros [-> | ->].
  - unfold _get. cbv zeta. fold (sent params).
    destruct (upstream (endpoint_url endpoint) (sent params)) as [|r];
      [now exists []; auto|].
    destruct (raise_for_status r); [exists [Sleep DELAY] | exists []]; auto.
Qed.

Lemma fetch_ok (endpoint : string) (params : dict pval) (r : response) :
  upstream (endpoint_url endpoint) (sent params) = Reply r ->
  raise_for_status r = Ok tt ->
  fetch API_KEY upstream endpoint params = Ok r.
Proof.
  intros Hreply Hstatus. unfold fetch, _get. cbv zeta.
  now rewrite Hreply, Hstatus.
Qed.

(** *** search_term_to_pmids *)

(** X5: On a well-formed answer the search returns the listed identifiers, in
    order, each turned into a string. *)
Theorem search_lists_ids (term : string) (retmax : Z) (r : response)
  (top er : dict json) (ids : list json) :
  term <> EmptyString ->
  upstream (endpoint_url "esearch") (sent (esearch_params term retmax)) = Reply r ->
  raise_for_status r = Ok tt ->
  content r = JsonDoc (JObj top) ->
  dict_get "esearchresult" top = Some (JObj er) ->
  dict_get "idlist" er = Some (JArr ids) ->
  search_term_to_pmids API_KEY upstream py_str term retmax = map py_str ids.
Proof.
  intros Hterm Hreply Hstatus Hcontent Hres Hids.
  unfold search_term_to_pmids, search_body.
  destruct term; [congruence|]. cbn [str_truthy negb].
  rewrite (fetch_ok _ _ r Hreply Hstatus). cbn [bind].
    unfold response_json.
  rewrite Hcontent. simpl. rewrite Hres. simpl. now rewrite Hids.
Qed.

(** X6: An answer without the result object, or without the list in it, gives
    no identifiers. *)
Theorem search_missing_keys (term : string) (retmax : Z) (r : response)
  (top : dict json) :
  upstream (endpoint_url "esearch") (sent (esearch_params term retmax)) = Reply r ->
  raise_for_status r = Ok tt ->
  content r = JsonDoc (JObj top) ->
  dict_get "esearchresult" top = None \/
  (exists er, dict_get "esearchresult" top = Some (JObj er) /\
              dict_get "idlist" er = None) ->
  search_term_to_pmids API_KEY upstream py_str term retmax = [].
Proof.
  intros Hreply Hstatus Hcontent Hmissing.
  unfold search_term_to_pmids, search_body.
  destruct (str_truthy term); [|reflexivity]. cbn [negb].
  rewrite (fetch_ok _ _ r Hreply Hstatus). cbn [bind].
    unfold response_json.
  rewrite Hcontent. simpl.
  destruct Hmissing as [Hres | [er [Hres Hids]]]; rewrite Hres; simpl.
  - reflexivity.
  - now rewrite Hids.
Qed.

(** *** get_article_summary_by_pmid *)

Lemma final_title_nonempty (pmid title : string) :
  final_title pmid title <> EmptyString.
Proof.
  unfold final_title. destruct title as [|c t]; [discriminate|].
  cbn [str_truthy negb].
  destruct (800 <? String.length (String c t)); [|discriminate].
  apply append_nonempty_r. discriminate.
Qed.

Lemma final_title_length (pmid title : string) :
  title <> EmptyString -> String.length (final_title pmid title) <= 800.
Proof.
  intros Hne. unfold final_title. destruct title as [|c t]; [congruence|].
  cbn [str_truthy negb].
  destruct (800 <? String.length (String c t)) eqn:E.
  - rewrite length_append_str.
    pose proof (rstrip_length (slice_to 200 (String c t))).
    pose proof (slice_to_length 200 (String c t)). simpl String.length at 2. lia.
  - apply Nat.ltb_ge in E. exact E.
Qed.

(** X7: The record of an article carries its identifier, a title and an
    abstract that are never empty, and a title of at most 800 characters
    unless it is the placeholder, which embeds the identifier. *)
Theorem article_never_blank (pmid : string) :
  let meta := get_article_summary_by_pmid API_KEY upstream pmid in
  meta_pmid meta = pmid /\
  meta_title meta <> EmptyString /\
  meta_abstract meta <> EmptyString /\
  (String.length (meta_title meta) <= 800 \/
   meta_title meta = ("(Untitled article, PMID " ++ pmid ++ ")")%string).
Proof.
  cbv zeta. split; [|split; [|split]].
  - unfold get_article_summary_by_pmid.
    destruct (summary_block API_KEY upstream pmid) as [[t j] d].
    now destruct (efetch_block API_KEY upstream pmid t) as [[t' a] m].
  - rewrite article_title. apply final_title_nonempty.
  - unfold get_article_summary_by_pmid.
    destruct (summary_block API_KEY upstream pmid) as [[t j] d].
    destruct (efetch_block API_KEY upstream pmid t) as [[t' a] m]. simpl.
    destruct a; [discriminate | discriminate].
  - rewrite article_title.
    destruct (resolved_title API_KEY upstream pmid) as [|c t] eqn:E.
    + now right.
    + left. apply final_title_length. discriminate.
Qed.

Lemma str_field_str (fields : dict json) (key t0 : string) :
  dict_get key fields = Some (JStr t0) -> t0 <> EmptyString ->
  str_field (JObj fields) key = Ok (strip t0).
Proof.
  intros Hget Hne. unfold str_field. cbn [json_get]. rewrite Hget.
  cbn [bind py_truthy]. now destruct t0; [congruence|].
Qed.

Lemma efetch_block_keeps_title (pmid title : string) :
  title <> EmptyString ->
  fst (fst (efetch_block API_KEY upstream pmid title)) = title.
Proof.
  intros Hne. unfold efetch_block.
  destruct (r2 <- fetch API_KEY upstream "efetch" (efetch_params pmid) ;;
            fromstring r2) as [root|]; [|reflexivity].
  unfold xml_title. simpl. destruct title; [congruence | reflexivity].
Qed.

(** X8: A summary that gives a title decides it: the stored title is the
    summary's, stripped (and cut when long), whatever the XML record
    holds. *)
Theorem summary_title_wins (pmid : string) (r : response)
  (top results fields : dict json) (t0 : string) :
  upstream (endpoint_url "esummary") (sent (esummary_params pmid)) = Reply r ->
  raise_for_status r = Ok tt ->
  content r = JsonDoc (JObj top) ->
  dict_get "result" top = Some (JObj results) ->
  dict_get pmid results = Some (JObj fields) ->
  dict_get "title" fields = Some (JStr t0) ->
  strip t0 <> EmptyString ->
  resolved_title API_KEY upstream pmid = strip t0 /\
  meta_title (summary pmid) = final_title pmid (strip t0).
Proof.
  intros Hreply Hstatus Hcontent Hresult Hpmid Htitle Hne.
  assert (Hres : resolved_title API_KEY upstream pmid = strip t0).
  { unfold resolved_title, summary_block.
    rewrite (fetch_ok _ _ r Hreply Hstatus). cbn [bind].
    unfold response_json.
    rewrite Hcontent. cbn [bind json_get]. rewrite Hresult. cbn [bind json_get].
    rewrite Hpmid.
    rewrite (str_field_str fields "title" t0 Htitle)
      by (intros ->; now apply Hne).
    pose proof (efetch_block_keeps_title pmid (strip t0) Hne) as Hkeep.
    destruct (str_field (JObj fields) "fulljournalname") as [journal|];
      [destruct (str_field (JObj fields) "pubdate") as [pubdate|]|];
      destruct (efetch_block API_KEY upstream pmid (strip t0)) as [[t a] m];
      exact Hkeep. }
  split; [exact Hres|]. now rewrite article_title, Hres.
Qed.




(** *** get_citations_of *)

(** X11: With a limit of zero or less, the answer is the first identifier of the
    flattened response, or nothing when there is none. *)
Theorem get_citations_of_without_limit (pmid direction : string) (limit : Z) :
  (limit <= 0)%Z ->
  let seen := get_citations_of API_KEY upstream py_str pmid direction limit in
  List.length seen <= 1 /\
  (forall out,
     pmid <> EmptyString ->
     citations_out API_KEY upstream py_str pmid direction = Ok out ->
     seen = firstn 1 out).
Proof.
  intros Hlimit. cbv zeta. unfold get_citations_of.
  destruct (str_truthy pmid) eqn:Hpmid; simpl.
  - destruct (citations_out API_KEY upstream py_str pmid direction)
      as [out|]; simpl.
    + assert (Hloop : seen_loop out [] limit = firstn 1 out).
      { destruct out as [|i out]; [reflexivity|]. simpl.
        now replace (limit <=? 1)%Z with true by (symmetry; apply Z.leb_le; lia). }
      rewrite Hloop. split.
      * pose proof (firstn_le_length 1 out) as Hle.
        destruct out; simpl; lia.
      * now intros out' _ [= <-].
    + split; [simpl; lia | discriminate].
  - split; [simpl; lia|]. intros out Hne.
    apply str_truthy_false in Hpmid. contradiction.
Qed.

Lemma linksetdb_loop_flat (groups : list (list json)) :
  linksetdb_loop py_str
    (map (fun links => JObj [("links", JArr links)]) groups)
  = Ok (map py_str (concat groups)).
Proof.
  induction groups as [|links groups IH]; [reflexivity|].
  simpl. simpl in IH. rewrite IH. simpl. now rewrite map_app.
Qed.

Lemma linksets_loop_flat (sets : list (list (list json))) :
  linksets_loop py_str
    (map (fun groups =>
            JObj [("linksetdb",
                   JArr (map (fun links => JObj [("links", JArr links)])
                             groups))])
         sets)
  = Ok (map py_str (concat (concat sets))).
Proof.
  induction sets as [|groups sets IH]; [reflexivity|].
  cbn [map linksets_loop json_get dict_get String.eqb Ascii.eqb Bool.eqb bind
       py_iter].
  rewrite linksetdb_loop_flat. cbn [bind]. rewrite IH. cbn [bind concat].
  now rewrite concat_app, map_app.
Qed.

(** X12: On a well-formed answer and with a limit of at least one, the answer is
    made of the links of all groups of all link sets, in the order of the
    document, each turned into a string, without repetitions, cut at the
    limit. *)
Theorem citations_flatten (pmid direction : string) (limit : Z) (r : response)
  (sets : list (list (list json))) :
  pmid <> EmptyString ->
  (1 <= limit)%Z ->
  upstream (endpoint_url "elink")
           (sent (elink_params pmid (linkname_of direction))) = Reply r ->
  raise_for_status r = Ok tt ->
  content r = JsonDoc (linksets_doc sets) ->
  get_citations_of API_KEY upstream py_str pmid direction limit
  = firstn (Z.to_nat limit)
           (set_of_list (map py_str (concat (concat sets)))).
Proof.
  intros Hpmid Hlimit Hreply Hstatus Hcontent.
  assert (Hout : citations_out API_KEY upstream py_str pmid direction
                 = Ok (map py_str (concat (concat sets)))).
  { unfold citations_out. rewrite (fetch_ok _ _ r Hreply Hstatus). cbn [bind].
    unfold response_json. rewrite Hcontent. unfold linksets_doc.
    cbn [bind json_get dict_get String.eqb Ascii.eqb Bool.eqb py_iter].
    apply linksets_loop_flat. }
  unfold get_citations_of. destruct pmid as [|c pmid]; [congruence|].
  cbn [str_truthy negb]. rewrite Hout. cbn [bind try_except].
  now rewrite seen_loop_firstn by (simpl; lia).
Qed.

(** X13: An answer without link sets gives no citations. *)
Theorem citations_missing_linksets (pmid direction : string) (limit : Z)
  (r : response) (top : dict json) :
  upstream (endpoint_url "elink")
           (sent (elink_params pmid (linkname_of direction))) = Reply r ->
  raise_for_status r = Ok tt ->
  content r = JsonDoc (JObj top) ->
  dict_get "linksets" top = None ->
  get_citations_of API_KEY upstream py_str pmid direction limit = [].
Proof.
  intros Hreply Hstatus Hcontent Hmissing. unfold get_citations_of.
  destruct (str_truthy pmid); [|reflexivity]. cbn [negb].
  unfold citations_out. rewrite (fetch_ok _ _ r Hreply Hstatus). cbn [bind].
  unfold response_json. rewrite Hcontent. cbn [bind json_get].
  rewrite Hmissing. reflexivity.
Qed.

End FetcherMore.

(** ** More on the graph *)

Lemma marks_cons (seed : string) (later : list string) (n : node) :
  marks (seed :: later) n = marks later (mark_shared seed n).
Proof. reflexivity. Qed.

Lemma marks_fields (later : list string) :
  forall n,
    n_id (marks later n) = n_id n /\
    n_seedGroup (marks later n) = n_seedGroup n.
Proof.
  induction later as [|seed later IH]; intros n; [now split|].
  rewrite marks_cons. destruct (IH (mark_shared seed n)) as [-> ->]. now split.
Qed.

Lemma marks_shared (later : list string) (n : node) :
  later <> [] ->
  n_shared (marks later n) = true /\ n_color (marks later n) = shared_color.
Proof.
  destruct later as [|seed later]; [congruence|]. intros _. rewrite marks_cons.
  unfold marks.
  apply (fold_left_invariant
           (fun n => n_shared n = true /\ n_color n = shared_color)).
  - intros a b _. now split.
  - now split.
Qed.

Lemma marks_groups (later : list string) :
  forall n s,
    In s (n_seedGroups (marks later n)) <-> In s (n_seedGroups n) \/ In s later.
Proof.
  induction later as [|seed later IH]; intros n s; [simpl; tauto|].
  rewrite marks_cons, IH. simpl.
  destruct (str_in seed (n_seedGroups n)) eqn:E; simpl.
  - apply str_in_iff in E. intuition (subst; auto).
  - rewrite in_app_iff. simpl. intuition (subst; auto).
Qed.

Lemma adjacent_short (x y : string) (l : list string) :
  List.length l <= 1 -> ~ adjacent x y l.
Proof.
  intros Hlen [l1 [l2 ->]]. rewrite length_app in Hlen. simpl in Hlen. lia.
Qed.

Lemma adjacent_cons2 (x y a b : string) (l : list string) :
  adjacent x y (a :: b :: l) <-> (x = a /\ y = b) \/ adjacent x y (b :: l).
Proof.
  split.
  - intros [[|c l1] [l2 H]]; simpl in H.
    + injection H as <- <- _. now left.
    + injection H as _ H. right. now exists l1, l2.
  - intros [[-> ->] | [l1 [l2 H]]].
    + now exists [], l.
    + exists (a :: l1), l2. simpl. now rewrite H.
Qed.

Lemma adjacent_In (x y : string) (l : list string) :
  adjacent x y l -> In x l /\ In y l.
Proof.
  intros [l1 [l2 ->]]. split; apply in_or_app; right; simpl; auto.
Qed.

Lemma chain_edges_In (l : list string) :
  forall links k,
    In k (chain_edges l links) <->
    In k links \/ exists x y, adjacent x y l /\ k = edge_key x y.
Proof.
  induction l as [|a l IH]; intros links k.
  - simpl. split; [auto|]. intros [H | (x & y & H & _)]; [assumption|].
    exfalso. revert H. apply adjacent_short. simpl. lia.
  - destruct l as [|b l].
    + simpl. split; [auto|]. intros [H | (x & y & H & _)]; [assumption|].
      exfalso. revert H. apply adjacent_short. simpl. lia.
    + change (chain_edges (a :: b :: l) links)
        with (chain_edges (b :: l) (set_add (edge_key a b) links)).
      rewrite IH, set_add_In. split.
      * intros [[-> | H] | (x & y & H & ->)]; auto.
        -- right. exists a, b. split; [|reflexivity].
           apply adjacent_cons2. now left.
        -- right. exists x, y. split; [|reflexivity].
           apply adjacent_cons2. now right.
      * intros [H | (x & y & H & ->)]; auto.
        apply adjacent_cons2 in H as [[-> ->] | H]; [auto|].
        right. now exists x, y.
Qed.

Lemma semantic_pair_iff (src tgt : node) :
  semantic_pair src tgt = true <->
  exists m, In m (n_mesh src) /\ In m (n_mesh tgt).
Proof.
  unfold semantic_pair.
  destruct (n_mesh src) as [|a la] eqn:Hs.
  - split; [discriminate | now intros (m & [] & _)].
  - destruct (n_mesh tgt) as [|b lb] eqn:Ht.
    + split; [discriminate | now intros (m & _ & [])].
    + rewrite existsb_exists. split.
      * intros (m & Hm & Hin). apply str_in_iff in Hin. now exists m.
      * intros (m & Hm & Hin). exists m. split; [assumption|].
        now apply str_in_iff.
Qed.

Lemma link_of_edge_inv (m : dict node) (edge : string) (l : link) :
  In l (link_of_edge m edge) ->
  split_arrow edge = [l_source l; l_target l] /\
  exists src tgt,
    dict_get (l_source l) m = Some src /\
    dict_get (l_target l) m = Some tgt /\
    l_semantic l = semantic_pair src tgt /\
    l_color l = if l_semantic l then "#66bb6a"%string else "#cccccc"%string.
Proof.
  unfold link_of_edge.
  destruct (split_arrow edge) as [|a [|b [|c rest]]] eqn:Hsplit; try easy.
  destruct (dict_get a m) as [src|] eqn:Ha; [|easy].
  destruct (dict_get b m) as [tgt|] eqn:Hb; [|easy].
  intros [<- | []]. simpl. split; [reflexivity|]. now exists src, tgt.
Qed.

(** With distinct keys and every node filed under its id, the map built on
    line 221 is the node map itself. *)
Lemma node_map_is_all_nodes (d : dict node) :
  nodes_ok d -> node_map_of (dict_values d) = d.
Proof.
  induction d as [|[k n] d IH] using rev_ind; intros [Hkeys Hall];
    [reflexivity|].
  assert (Hk : ~ In k (dict_keys d) /\ NoDup (dict_keys d)).
  { unfold dict_keys in *. rewrite map_app in Hkeys. simpl in Hkeys.
    split; [apply NoDup_remove_2 in Hkeys | apply NoDup_remove_1 in Hkeys];
      now rewrite app_nil_r in Hkeys. }
  destruct Hk as [Hk Hnd].
  assert (Hd : nodes_ok d).
  { split; [assumption|]. intros k' n' Hin. apply Hall, in_or_app. now left. }
  assert (Hid : n_id n = k).
  { destruct (Hall k n) as [H _]; [apply in_or_app; right; now left | exact H]. }
  unfold dict_values. rewrite map_app. simpl. rewrite node_map_of_snoc.
  fold (dict_values d). rewrite (IH Hd), Hid. apply dict_set_new.
  destruct (dict_mem k d) eqn:E; [|reflexivity].
  apply dict_mem_iff in E. contradiction.
Qed.

Section GraphMore.

Variable API_KEY : option string.
Variable upstream : string -> dict pval -> reply.
Variable py_str : json -> string.
Variable order : pyset -> list string.
Variables limit connector_limit : Z.

Local Abbreviation step := (node_step API_KEY upstream).
Local Abbreviation body :=
  (seed_body API_KEY upstream py_str order limit connector_limit).
Local Abbreviation loop :=
  (seed_loop API_KEY upstream py_str order limit connector_limit).
Local Abbreviation state_after :=
  (build_state API_KEY upstream py_str order limit connector_limit).
Local Abbreviation graph_of :=
  (build_graph API_KEY upstream py_str order limit connector_limit).
Local Abbreviation resolve := (resolve_seed API_KEY upstream py_str limit).
Local Abbreviation working_set :=
  (local_pmids_of API_KEY upstream py_str connector_limit).
Local Abbreviation cites p :=
  (get_citations_of API_KEY upstream py_str p "refs" connector_limit).
Local Abbreviation found_under :=
  (discovered API_KEY upstream py_str limit connector_limit).
Local Abbreviation entry :=
  (entry_after API_KEY upstream py_str limit connector_limit).
Local Abbreviation finders :=
  (discovering API_KEY upstream py_str limit connector_limit).
Local Abbreviation edge_of :=
  (seed_edge API_KEY upstream py_str order limit connector_limit).

(** *** Invariants of the entries *)

Lemma entries_invariant (P : string -> node -> Prop) :
  (forall s_index seed k, P k (new_node API_KEY upstream s_index seed k)) ->
  (forall seed k n, P k n -> P k (mark_shared seed n)) ->
  forall seeds k n, In (k, n) (all_nodes (state_after seeds)) -> P k n.
Proof.
  intros Hnew Hmark seeds. unfold build_state.
  assert (Hloop : forall seeds s_index st,
             (forall k n, In (k, n) (all_nodes st) -> P k n) ->
             forall k n, In (k, n) (all_nodes (loop s_index seeds st)) -> P k n).
  { clear seeds. induction seeds as [|seed rest IH]; simpl; [auto|].
    intros s_index st Hst. apply IH. unfold seed_body.
    destruct (resolve seed); [assumption|]. cbv zeta. cbn [all_nodes].
    apply (fold_left_invariant
             (fun d : dict node => forall k n, In (k, n) d -> P k n));
      [|assumption].
    intros d pmid Hd k n. unfold node_step.
    destruct (dict_mem pmid d) eqn:Hmem.
    - intros Hin. apply In_dict_update in Hin as [Hin | [n0 [Hin ->]]]; auto.
    - rewrite dict_set_new by assumption. intros Hin.
      apply in_app_or in Hin as [Hin | [[= <- <-] | []]]; auto. }
  apply Hloop. intros k n [].
Qed.

Lemma palette_index (s_index : nat) :
  In (nth (s_index mod 8) palette EmptyString) palette.
Proof.
  apply nth_In. change (List.length palette) with 8.
  apply Nat.mod_upper_bound. discriminate.
Qed.

Lemma palette_not_shared : ~ In shared_color palette.
Proof. simpl. intuition discriminate. Qed.

Lemma article_abstract_nonempty (pmid : string) :
  meta_abstract (get_article_summary_by_pmid API_KEY upstream pmid)
  <> EmptyString.
Proof.
  unfold get_article_summary_by_pmid.
  destruct (summary_block API_KEY upstream pmid) as [[t j] d].
  destruct (efetch_block API_KEY upstream pmid t) as [[t' a] m]. simpl.
  destruct a; discriminate.
Qed.

(** X14: Every node of the graph carries the record the normalizer gives for its
    own id, so a title and an abstract that are not empty, and the
    descriptors of its own MeSH headings; and its colour is the shared
    colour exactly when it is shared, a colour of the palette otherwise,
    with no seed group but its own. *)
Theorem nodes_carry_record (seeds : list string) :
  forall n, In n (fst (build_graph API_KEY upstream py_str order limit connector_limit
         seeds)) ->
    node_filled API_KEY upstream (n_id n) n /\
    node_coloured (n_id n) n /\
    (n_shared n = true <-> n_color n = shared_color) /\
    n_title_full n <> EmptyString /\
    n_abstract n <> EmptyString.
Proof.
  intros n Hin. simpl in Hin. unfold nodes_of, dict_values in Hin.
  apply in_map_iff in Hin as [[k n'] [Heq Hin]]. simpl in Heq. subst n'.
  assert (Hid : n_id n = k)
    by (now destruct (proj2 (build_state_ok API_KEY upstream py_str order limit
                               connector_limit seeds) k n Hin)).
  rewrite Hid.
  assert (Hfilled : node_filled API_KEY upstream k n).
  { revert Hin. apply (entries_invariant (node_filled API_KEY upstream)).
    - intros s_index seed k'. now repeat split.
    - intros seed k' n' H. exact H. }
  assert (Hcol : node_coloured k n).
  { revert Hin. apply (entries_invariant node_coloured).
    - intros s_index seed k'. right. repeat split. apply palette_index.
    - intros seed k' n' _. left. now split. }
  split; [exact Hfilled|]. split; [exact Hcol|]. split; [|split].
  - destruct Hcol as [[Hs Hc] | (Hs & Hc & _)].
    + now split.
    + split; [congruence|]. intros Hwhite. rewrite Hwhite in Hc.
      now apply palette_not_shared in Hc.
  - destruct Hfilled as (-> & _). rewrite article_title.
    apply final_title_nonempty.
  - destruct Hfilled as (_ & -> & _). apply article_abstract_nonempty.
Qed.

Hypothesis order_ok : set_iteration order.

(** *** The entry of one identifier *)

Lemma node_step_get (d : string) (s_index : nat) (seed : string)
  (nodes : dict node) (x : string) :
  dict_get d (step s_index seed nodes x)
  = if String.eqb d x
    then meet API_KEY upstream s_index seed d (dict_get d nodes)
    else dict_get d nodes.
Proof.
  unfold node_step, dict_mem, meet.
  destruct (dict_get x nodes) as [nx|] eqn:Hx.
  - rewrite dict_get_update. destruct (String.eqb d x) eqn:E; [|reflexivity].
    apply String.eqb_eq in E. subst x. now rewrite Hx.
  - rewrite dict_get_set. destruct (String.eqb d x) eqn:E; [|reflexivity].
    apply String.eqb_eq in E. subst x. now rewrite Hx.
Qed.

Lemma node_loop_get (d : string) (s_index : nat) (seed : string)
  (l : list string) :
  NoDup l -> forall nodes,
    dict_get d (fold_left (step s_index seed) l nodes)
    = if str_in d l
      then meet API_KEY upstream s_index seed d (dict_get d nodes)
      else dict_get d nodes.
Proof.
  induction 1 as [|x l Hx Hl IH]; intros nodes; [reflexivity|].
  simpl fold_left. rewrite IH, node_step_get.
  change (str_in d (x :: l)) with (String.eqb d x || str_in d l).
  destruct (String.eqb d x) eqn:E; simpl.
  - apply String.eqb_eq in E. subst x. apply str_in_false in Hx.
    now rewrite Hx.
  - reflexivity.
Qed.

Lemma seed_body_get (d : string) (s_index : nat) (seed : string)
  (st : graph_state) :
  dict_get d (all_nodes (body s_index seed st))
  = if str_in d (working_set (resolve seed))
    then meet API_KEY upstream s_index seed d (dict_get d (all_nodes st))
    else dict_get d (all_nodes st).
Proof.
  unfold seed_body. destruct (resolve seed) as [|p pmids]; [reflexivity|].
  cbv zeta. cbn [all_nodes].
  pose proof (working_set_NoDup API_KEY upstream py_str connector_limit
                (p :: pmids)) as Hnd.
  rewrite node_loop_get by exact (Permutation_NoDup (order_ok _ Hnd) Hnd).
  now rewrite <- (str_in_Permutation d _ _ (order_ok _ Hnd)).
Qed.

Lemma seed_loop_get (d : string) (seeds : list string) :
  forall s_index st,
    dict_get d (all_nodes (loop s_index seeds st))
    = entry d s_index seeds (dict_get d (all_nodes st)).
Proof.
  induction seeds as [|seed rest IH]; intros s_index st; [reflexivity|].
  simpl. now rewrite IH, seed_body_get.
Qed.

Lemma found_under_iff (seed d : string) :
  str_in d (working_set (resolve seed)) = true <-> found_under seed d.
Proof. apply str_in_iff. Qed.

Lemma entry_after_app (d : string) (s1 s2 : list string) :
  forall s_index o,
    entry d s_index (s1 ++ s2) o
    = entry d (s_index + List.length s1) s2 (entry d s_index s1 o).
Proof.
  induction s1 as [|seed s1 IH]; simpl; intros s_index o.
  - now rewrite Nat.add_0_r.
  - rewrite IH. f_equal. lia.
Qed.

Lemma entry_after_skip (d : string) (seeds : list string) :
  (forall seed, In seed seeds -> ~ found_under seed d) ->
  forall s_index o, entry d s_index seeds o = o.
Proof.
  induction seeds as [|seed rest IH]; simpl; intros Hnone s_index o;
    [reflexivity|].
  destruct (str_in d (working_set (resolve seed))) eqn:E.
  - apply found_under_iff in E. now destruct (Hnone seed (or_introl eq_refl)).
  - apply IH. auto.
Qed.

Lemma entry_after_met (d : string) (seeds : list string) :
  forall s_index n,
    entry d s_index seeds (Some n) = Some (marks (finders d seeds) n).
Proof.
  induction seeds as [|seed rest IH]; intros s_index n; [reflexivity|].
  simpl. unfold discovering. simpl.
  destruct (str_in d (working_set (resolve seed))).
  - unfold meet. rewrite IH. reflexivity.
  - apply IH.
Qed.

Lemma entry_after_None_iff (d : string) (seeds : list string) :
  forall s_index,
    entry d s_index seeds None = None <->
    forall seed, In seed seeds -> ~ found_under seed d.
Proof.
  induction seeds as [|seed rest IH]; intros s_index; simpl; [tauto|].
  destruct (str_in d (working_set (resolve seed))) eqn:E.
  - unfold meet. rewrite entry_after_met. split; [discriminate|].
    intros H. apply found_under_iff in E.
    now destruct (H seed (or_introl eq_refl)).
  - rewrite IH. split.
    + intros H s [<- | Hin]; [|auto]. rewrite <- found_under_iff. congruence.
    + auto.
Qed.

Lemma finders_In (d : string) (seeds : list string) (seed : string) :
  In seed (finders d seeds) <-> In seed seeds /\ found_under seed d.
Proof. unfold discovering. now rewrite filter_In, found_under_iff. Qed.

Lemma key_iff_discovered (seeds : list string) (d : string) :
  In d (dict_keys (all_nodes (state_after seeds))) <->
  exists seed, In seed seeds /\ found_under seed d.
Proof.
  unfold build_state. split.
  - intros Hin.
    destruct (existsb (fun seed => str_in d (working_set (resolve seed))) seeds)
      eqn:E.
    + apply existsb_exists in E as [seed [Hseed Hd]].
      exists seed. split; [assumption | now apply found_under_iff].
    + exfalso. apply dict_get_None in Hin; [assumption|].
      rewrite seed_loop_get. apply entry_after_None_iff.
      intros seed Hseed Hd. apply found_under_iff in Hd.
      assert (existsb (fun seed => str_in d (working_set (resolve seed))) seeds
              = true) by (apply existsb_exists; eauto).
      congruence.
  - intros (seed & Hseed & Hd). apply dict_mem_iff. unfold dict_mem.
    destruct (dict_get d (all_nodes (loop 0 seeds empty_state))) eqn:G;
      [reflexivity|].
    rewrite seed_loop_get in G. cbn [all_nodes empty_state dict_get] in G.
    pose proof (proj1 (entry_after_None_iff d seeds 0) G) as Hnone.
    now destruct (Hnone seed Hseed Hd).
Qed.

(** *** The nodes *)

(** X15: The ids of the nodes are exactly the identifiers discovered under one
    of the seeds. *)
Theorem node_ids_are_discovered (seeds : list string) (d : string) :
  In d (map n_id (fst (build_graph API_KEY upstream py_str order limit connector_limit
         seeds))) <->
  exists seed, In seed seeds /\ found_under seed d.
Proof.
  simpl. unfold nodes_of.
  rewrite ids_are_keys
    by apply (build_state_ok API_KEY upstream py_str order limit connector_limit).
  apply key_iff_discovered.
Qed.

Lemma entry_is_node (seeds : list string) (d : string) (n : node) :
  dict_get d (all_nodes (state_after seeds)) = Some n ->
  In n (fst (build_graph API_KEY upstream py_str order limit connector_limit
         seeds)) /\ n_id n = d.
Proof.
  intros Hn. apply dict_get_In in Hn. split.
  - simpl. unfold nodes_of, dict_values. now apply (in_map snd) in Hn.
  - now destruct (proj2 (build_state_ok API_KEY upstream py_str order limit
                           connector_limit seeds) d n Hn).
Qed.

Lemma final_entry (pre post : list string) (A d : string) :
  (forall seed, In seed pre -> ~ found_under seed d) ->
  found_under A d ->
  dict_get d (all_nodes (state_after (pre ++ A :: post)))
  = Some (marks (finders d post)
                (new_node API_KEY upstream (List.length pre) A d)).
Proof.
  intros Hpre HA. unfold build_state. rewrite seed_loop_get.
  cbn [all_nodes empty_state dict_get].
  rewrite entry_after_app, (entry_after_skip d pre Hpre).
  cbn [entry_after]. apply found_under_iff in HA. rewrite HA.
  unfold meet. apply entry_after_met.
Qed.

(** X16: The first seed under which an identifier is discovered owns its node:
    it is the node's seed group and the head of its seed groups; and while
    the node is not shared, its colour is the colour of that seed's index
    modulo 8 in the palette, and its seed groups hold that seed alone. *)
Theorem first_seed_owns_node (pre post : list string) (A d : string) :
  (forall seed, In seed pre -> ~ found_under seed d) ->
  found_under A d ->
  exists n,
    In n (fst (build_graph API_KEY upstream py_str order limit connector_limit
         (pre ++ A :: post))) /\
    n_id n = d /\
    n_seedGroup n = A /\
    hd_error (n_seedGroups n) = Some A /\
    (n_shared n = false ->
     n_color n = nth (List.length pre mod 8) palette EmptyString /\
     n_seedGroups n = [A]).
Proof.
  intros Hpre HA. pose proof (final_entry pre post A d Hpre HA) as Hn.
  eexists. destruct (entry_is_node _ _ _ Hn) as [Hin Hid].
  split; [exact Hin|]. split; [exact Hid|].
  assert (Hgroup : n_seedGroup
                     (marks (finders d post)
                        (new_node API_KEY upstream (List.length pre) A d)) = A)
    by (now destruct (marks_fields (finders d post)
                        (new_node API_KEY upstream (List.length pre) A d))
         as [_ ->]).
  split; [exact Hgroup|]. split.
  - apply dict_get_In in Hn.
    destruct (proj2 (build_state_ok API_KEY upstream py_str order limit
                       connector_limit _) d _ Hn) as (_ & _ & _ & Hhd & _).
    now rewrite Hhd, Hgroup.
  - destruct (finders d post) as [|B later] eqn:E.
    + intros _. now split.
    + intros Hshared.
      destruct (marks_shared (B :: later)
                  (new_node API_KEY upstream (List.length pre) A d))
        as [Hs _]; [discriminate | congruence].
Qed.

(** X17: A node is shared exactly when its identifier is discovered again under
    a later seed of the list, be it the same seed given twice; and its seed
    groups are the first seed that discovered it and the later seeds that
    did. *)
Theorem shared_iff_met_again (pre post : list string) (A d : string) :
  (forall seed, In seed pre -> ~ found_under seed d) ->
  found_under A d ->
  exists n,
    In n (fst (build_graph API_KEY upstream py_str order limit connector_limit
         (pre ++ A :: post))) /\
    n_id n = d /\
    (n_shared n = true <-> exists B, In B post /\ found_under B d) /\
    (forall seed, In seed (n_seedGroups n) <->
                  seed = A \/ (In seed post /\ found_under seed d)).
Proof.
  intros Hpre HA. pose proof (final_entry pre post A d Hpre HA) as Hn.
  eexists. destruct (entry_is_node _ _ _ Hn) as [Hin Hid].
  split; [exact Hin|]. split; [exact Hid|]. split.
  - destruct (finders d post) as [|B later] eqn:E.
    + split; [discriminate|]. intros (B & HB & HdB).
      assert (Hf : In B (finders d post)) by now apply finders_In.
      rewrite E in Hf. destruct Hf.
    + split.
      * intros _. exists B. apply finders_In. rewrite E. now left.
      * intros _. now apply marks_shared.
  - intros seed. rewrite marks_groups, finders_In. simpl. intuition.
Qed.

(** *** The edge set *)

Lemma set_of_list_In (l : list string) (x : string) :
  In x (set_of_list l) <-> In x l.
Proof.
  unfold set_of_list. rewrite (fold_set_add_In (fun r => r)), map_id.
  simpl. tauto.
Qed.

Lemma add_refs_In (s : pyset) (p d : string) :
  In d (add_refs API_KEY upstream py_str connector_limit s p) <->
  In d s \/ In d (cites p).
Proof.
  unfold add_refs. now rewrite (fold_set_add_In (fun r => r)), map_id.
Qed.

Lemma working_set_In (pmids : list string) (d : string) :
  In d (working_set pmids) <->
  In d pmids \/ exists p, In p pmids /\ In d (cites p).
Proof.
  unfold local_pmids_of. rewrite <- (set_of_list_In pmids d).
  generalize (set_of_list pmids) as s.
  induction pmids as [|p pmids IH]; intros s; simpl.
  - split; [auto | now intros [H | (p & [] & _)]].
  - rewrite IH, add_refs_In. split.
    + intros [[H | H] | (q & Hq & H)]; eauto.
    + intros [H | (q & [<- | Hq] & H)]; eauto.
Qed.

Lemma add_citations_In (links : pyset) (a k : string) :
  In k (add_citations API_KEY upstream py_str connector_limit links a) <->
  In k links \/ exists b, In b (cites a) /\ k = edge_key a b.
Proof.
  unfold add_citations. rewrite (fold_set_add_In (edge_key a)), in_map_iff.
  split; (intros [H | (b & H1 & H2)]; [now left | right; exists b; auto]).
Qed.

Lemma citation_edges_In (pmids : list string) :
  forall links k,
    In k (citation_edges API_KEY upstream py_str connector_limit pmids links)
    <-> In k links \/
        exists a b, In a pmids /\ In b (cites a) /\ k = edge_key a b.
Proof.
  unfold citation_edges.
  induction pmids as [|a pmids IH]; intros links k; simpl.
  - split; [auto | now intros [H | (a & b & [] & _)]].
  - rewrite IH, add_citations_In. split.
    + intros [[H | (b & Hb & ->)] | (a' & b & Ha & Hb & ->)]; eauto 8.
    + intros [H | (a' & b & [<- | Ha] & Hb & ->)]; eauto 8.
Qed.

Lemma seed_body_links_In (s_index : nat) (seed : string) (st : graph_state)
  (k : string) :
  In k (all_links (body s_index seed st)) <->
  In k (all_links st) \/ exists x y, edge_of seed x y /\ k = edge_key x y.
Proof.
  unfold seed_body, seed_edge.
  destruct (resolve seed) as [|p pmids] eqn:Hres.
  - split; [auto|]. intros [H | (x & y & [[[] _] | Hadj] & _)]; [assumption|].
    exfalso. revert Hadj. apply adjacent_short.
    change (working_set []) with (@nil string).
    rewrite <- (Permutation_length (order_ok [] (NoDup_nil string))).
    simpl. lia.
  - cbv zeta. cbn [all_links]. rewrite chain_edges_In, citation_edges_In.
    split.
    + intros [[H | (a & b & Ha & Hb & ->)] | (x & y & Hadj & ->)]; eauto 8.
    + intros [H | (x & y & [[Ha Hb] | Hadj] & ->)]; eauto 8.
Qed.

Lemma seed_loop_links_In (seeds : list string) (k : string) :
  forall s_index st,
    In k (all_links (loop s_index seeds st)) <->
    In k (all_links st) \/
    exists seed x y, In seed seeds /\ edge_of seed x y /\ k = edge_key x y.
Proof.
  induction seeds as [|seed rest IH]; intros s_index st; simpl.
  - split; [auto | now intros [H | (s & x & y & [] & _)]].
  - rewrite IH, seed_body_links_In. split.
    + intros [[H | (x & y & He & ->)] | (s & x & y & Hs & He & ->)]; eauto 10.
    + intros [H | (s & x & y & [<- | Hs] & He & ->)]; eauto 10.
Qed.

Lemma seed_edge_discovered (seed x y : string) :
  edge_of seed x y -> found_under seed x /\ found_under seed y.
Proof.
  unfold seed_edge, discovered. intros [[Hx Hy] | Hadj].
  - split; apply working_set_In; eauto.
  - apply adjacent_In in Hadj as [Hx Hy].
    pose proof (working_set_NoDup API_KEY upstream py_str connector_limit
                  (resolve seed)) as Hnd.
    split; apply (Permutation_in _ (Permutation_sym (order_ok _ Hnd)));
      assumption.
Qed.

Lemma key_get {V : Type} (d : string) (m : dict V) :
  In d (dict_keys m) -> exists v, dict_get d m = Some v.
Proof.
  intros Hin. destruct (dict_get d m) as [v|] eqn:E; [now exists v|].
  apply dict_get_None in E. contradiction.
Qed.

Lemma all_links_NoDup (seeds : list string) :
  NoDup (all_links (state_after seeds)).
Proof. apply seed_loop_links_NoDup. constructor. Qed.

(** X18: Every link of the graph was put there by a seed: it joins a primary
    identifier of the seed to one of its references, or two neighbours of
    the seed's working set as it was iterated. *)
Theorem links_are_seed_edges (seeds : list string) :
  forall l, In l (snd (build_graph API_KEY upstream py_str order limit connector_limit
         seeds)) ->
    exists seed, In seed seeds /\ edge_of seed (l_source l) (l_target l).
Proof.
  intros l Hin. simpl in Hin. unfold links_of in Hin.
  apply in_flat_map in Hin as [e [He Hl]].
  apply link_of_edge_inv in Hl as [Hsplit _].
  apply (Permutation_in _ (Permutation_sym
                             (order_ok _ (all_links_NoDup seeds)))) in He.
  unfold build_state in He.
  apply seed_loop_links_In in He as [[] | (seed & x & y & Hseed & Hedge & ->)].
  apply split_edge_key_inv in Hsplit as [-> ->]. eauto.
Qed.

(** X19: Conversely, a pair of the edge set whose key splits back into the
    pair is a link of the graph in two cases: two neighbours of a seed's
    working set as it was iterated, which always have nodes; and a primary
    identifier of a seed, which always has a node, with one of its
    references, when that reference is the id of a node. *)
Theorem seed_edges_are_links (seeds : list string) (seed x y : string) :
  In seed seeds ->
  split_arrow (edge_key x y) = [x; y] ->
  adjacent x y
    (order (local_pmids_of API_KEY upstream py_str connector_limit
              (resolve_seed API_KEY upstream py_str limit seed))) \/
  (In x (resolve_seed API_KEY upstream py_str limit seed) /\
   In y (get_citations_of API_KEY upstream py_str x "refs" connector_limit) /\
   In y (map n_id (fst (build_graph API_KEY upstream py_str order limit
                          connector_limit seeds)))) ->
  exists l,
    In l (snd (build_graph API_KEY upstream py_str order limit connector_limit
                 seeds)) /\
    l_source l = x /\ l_target l = y.
Proof.
  intros Hseed Hsplit Hpair.
  assert (Hstate : nodes_ok (all_nodes (state_after seeds)))
    by apply (build_state_ok API_KEY upstream py_str order limit connector_limit).
  assert (Hedge : edge_of seed x y).
  { destruct Hpair as [Hadj | (Hx & Hy & _)]; [now right | now left]. }
  assert (Hkeys : In x (dict_keys (all_nodes (state_after seeds))) /\
                  In y (dict_keys (all_nodes (state_after seeds)))).
  { destruct Hpair as [Hadj | (Hx & _ & Hy)].
    - destruct (seed_edge_discovered seed x y (or_intror Hadj)) as [Dx Dy].
      split; apply key_iff_discovered; eauto.
    - split.
      + apply key_iff_discovered. exists seed. split; [assumption|].
        apply working_set_In. now left.
      + simpl in Hy. unfold nodes_of in Hy.
        now rewrite ids_are_keys in Hy by exact Hstate. }
  destruct Hkeys as [Kx Ky].
  destruct (key_get x _ Kx) as [nx Hnx]. destruct (key_get y _ Ky) as [ny Hny].
  simpl. unfold links_of, nodes_of.
  rewrite node_map_is_all_nodes by exact Hstate.
  eexists. split.
  - apply in_flat_map. exists (edge_key x y). split.
    + apply (Permutation_in _ (order_ok _ (all_links_NoDup seeds))).
      unfold build_state. apply seed_loop_links_In. right. eauto 8.
    + unfold link_of_edge. rewrite Hsplit, Hnx, Hny. left. reflexivity.
  - simpl. auto.
Qed.

(** X20: A link is semantic exactly when its two nodes have a MeSH descriptor
    in common, and its colour says so. *)
Theorem links_semantic (seeds : list string) :
  forall l, In l (snd (build_graph API_KEY upstream py_str order limit connector_limit
         seeds)) ->
    exists src tgt,
      In src (fst (build_graph API_KEY upstream py_str order limit connector_limit
         seeds)) /\ n_id src = l_source l /\
      In tgt (fst (build_graph API_KEY upstream py_str order limit connector_limit
         seeds)) /\ n_id tgt = l_target l /\
      (l_semantic l = true <->
       exists m, In m (n_mesh src) /\ In m (n_mesh tgt)) /\
      l_color l = if l_semantic l then "#66bb6a"%string else "#cccccc"%string.
Proof.
  intros l Hin. simpl in Hin. unfold links_of in Hin.
  apply in_flat_map in Hin as [e [_ Hl]].
  apply link_of_edge_inv in Hl
    as (_ & src & tgt & Hsrc & Htgt & Hsem & Hcol).
  apply node_map_of_get in Hsrc as [Hsrc Hids], Htgt as [Htgt Hidt].
  exists src, tgt. repeat split; try assumption.
  - rewrite Hsem. apply semantic_pair_iff.
  - rewrite Hsem. apply semantic_pair_iff.
Qed.

(** *** When the data source is down *)

Hypothesis down : source_down upstream.

Lemma search_down (term : string) (retmax : Z) :
  search_term_to_pmids API_KEY upstream py_str term retmax = [].
Proof.
  unfold search_term_to_pmids, search_body.
  rewrite fetch_json_failure by apply down. now destruct (str_truthy term).
Qed.

Lemma cites_down (p : string) (direction : string) (lim : Z) :
  get_citations_of API_KEY upstream py_str p direction lim = [].
Proof.
  unfold get_citations_of, citations_out.
  rewrite fetch_json_failure by apply down. now destruct (str_truthy p).
Qed.

Lemma summary_down (pmid : string) :
  get_article_summary_by_pmid API_KEY upstream pmid = default_article pmid.
Proof.
  unfold get_article_summary_by_pmid.
  rewrite summary_block_failure, efetch_block_failure by apply down.
  reflexivity.
Qed.

Lemma working_set_down (seed : string) :
  working_set (resolve seed) = if isdigit seed then [seed] else [].
Proof.
  unfold resolve_seed. rewrite search_down.
  destruct (isdigit seed); [|reflexivity].
  unfold local_pmids_of. simpl. unfold add_refs. now rewrite cites_down.
Qed.

Lemma found_under_down (seed d : string) :
  found_under seed d <-> isdigit seed = true /\ d = seed.
Proof.
  unfold discovered. rewrite working_set_down.
  destruct (isdigit seed); simpl; intuition congruence.
Qed.

Lemma edge_of_down (seed x y : string) : ~ edge_of seed x y.
Proof.
  unfold seed_edge. rewrite cites_down. intros [[_ []] | Hadj].
  revert Hadj. apply adjacent_short.
  pose proof (working_set_NoDup API_KEY upstream py_str connector_limit
                (resolve seed)) as Hnd.
  rewrite <- (Permutation_length (order_ok _ Hnd)), working_set_down.
  destruct (isdigit seed); simpl; lia.
Qed.

(** X21: With the data source down the answer is still a graph: its nodes are
    the seeds made of digits, each with the placeholder title and abstract
    and nothing else, and it has no links. *)
Theorem graph_when_source_down (seeds : list string) :
  snd (build_graph API_KEY upstream py_str order limit connector_limit
         seeds) = [] /\
  (forall d, In d (map n_id (fst (build_graph API_KEY upstream py_str order limit connector_limit
         seeds))) <->
             In d seeds /\ isdigit d = true) /\
  (forall n, In n (fst (build_graph API_KEY upstream py_str order limit connector_limit
         seeds)) ->
     n_title_full n = ("(Untitled article, PMID " ++ n_id n ++ ")")%string /\
     n_abstract n = "(No abstract available.)"%string /\
     n_journal n = EmptyString /\
     n_pubdate n = EmptyString /\
     n_mesh n = []).
Proof.
  split; [|split].
  - simpl. unfold links_of.
    assert (Hnone : all_links (state_after seeds) = []).
    { destruct (all_links (state_after seeds)) as [|k ks] eqn:E;
        [reflexivity|].
      assert (Hk : In k (all_links (state_after seeds)))
        by (rewrite E; now left).
      unfold build_state in Hk.
      apply seed_loop_links_In in Hk as [[] | (s & x & y & _ & He & _)].
      now apply edge_of_down in He. }
    rewrite Hnone.
    now rewrite (Permutation_nil (order_ok [] (NoDup_nil string))).
  - intros d. simpl. unfold nodes_of.
    rewrite ids_are_keys
      by apply (build_state_ok API_KEY upstream py_str order limit
                  connector_limit).
    rewrite key_iff_discovered. split.
    + intros (seed & Hseed & Hd). apply found_under_down in Hd as [Hdig ->].
      now split.
    + intros [Hd Hdig]. exists d. split; [assumption|].
      now apply found_under_down.
  - intros n Hin. simpl in Hin. unfold nodes_of, dict_values in Hin.
    apply in_map_iff in Hin as [[k n'] [Heq Hin]]. simpl in Heq. subst n'.
    assert (Hid : n_id n = k)
      by (now destruct (proj2 (build_state_ok API_KEY upstream py_str order
                                 limit connector_limit seeds) k n Hin)).
    assert (Hfilled : node_filled API_KEY upstream k n).
    { revert Hin. apply (entries_invariant (node_filled API_KEY upstream)).
      - intros s_index seed k'. now repeat split.
      - intros seed k' n' H. exact H. }
    destruct Hfilled as (Ht & Ha & Hj & Hp & Hm & Hmesh).
    rewrite Hid, Ht, Ha, Hj, Hp, Hmesh, Hm, summary_down. now repeat split.
Qed.

End GraphMore.

(** * Examples of the further properties *)

Lemma parse_seeds_join_witness :
  Forall clean_seed ["flu"; "123"] /\
  parse_seeds (join "," ["flu"; "123"]) = ["flu"; "123"].
Proof.
  assert (H : Forall clean_seed ["flu"; "123"])
    by (repeat constructor; discriminate).
  split; [exact H | exact (parse_seeds_join ["flu"; "123"] H)].
Defined.

Lemma edge_key_split_witness :
  lacks "-" "12" /\ lacks ">" "34" /\
  split_arrow (edge_key "12" "34") = ["12"; "34"].
Proof.
  assert (Ha : lacks "-" "12") by reflexivity.
  assert (Hb : lacks ">" "34") by reflexivity.
  split; [exact Ha|]. split; [exact Hb | exact (edge_key_split "12" "34" Ha Hb)].
Defined.

Lemma get_sends_key_witness :
  dict_get "api_key" (with_api_key (Some "k") (esearch_params "flu" 20))
  = Some (PStr "k") /\
  dict_get "term" (with_api_key (Some "k") (esearch_params "flu" 20))
  = dict_get "term" (esearch_params "flu" 20) /\
  with_api_key None (esearch_params "flu" 20) = esearch_params "flu" 20.
Proof.
  destruct (get_sends_key (Some "k") stub_down "esearch"
              (esearch_params "flu" 20)) as (Hkey & Hother & _).
  destruct (get_sends_key None stub_down "esearch"
              (esearch_params "flu" 20)) as (_ & _ & Hnone & _).
  split; [apply (Hkey "k" eq_refl); discriminate|].
  split; [apply Hother; discriminate | apply Hnone; now left].
Defined.

Lemma search_lists_ids_witness :
  search_term_to_pmids None (stub_search ["1"; "2"]) str_scalar "flu" 20
  = map str_scalar [JStr "1"; JStr "2"].
Proof.
  apply (search_lists_ids None (stub_search ["1"; "2"]) str_scalar "flu" 20
           {| status_code := 200; content := JsonDoc (esearch_doc ["1"; "2"]) |}
           [("esearchresult", JObj [("idlist", JArr [JStr "1"; JStr "2"])])]
           [("idlist", JArr [JStr "1"; JStr "2"])]
           [JStr "1"; JStr "2"]);
    solve [discriminate | reflexivity].
Defined.

Lemma search_missing_keys_witness :
  search_term_to_pmids None (stub_esearch (JObj [])) str_scalar "flu" 20 = [].
Proof.
  apply (search_missing_keys None (stub_esearch (JObj [])) str_scalar "flu" 20
           {| status_code := 200; content := JsonDoc (JObj []) |} []);
    solve [reflexivity | now left].
Defined.

Lemma summary_title_wins_witness :
  resolved_title None (stub_summary "1" " T ") "1" = strip " T " /\
  meta_title (get_article_summary_by_pmid None (stub_summary "1" " T ") "1")
  = final_title "1" (strip " T ").
Proof.
  apply (summary_title_wins None (stub_summary "1" " T ") "1"
           {| status_code := 200; content := JsonDoc (esummary_doc "1" " T ") |}
           [("result", JObj [("1", JObj [("title", JStr " T ")])])]
           [("1", JObj [("title", JStr " T ")])]
           [("title", JStr " T ")] " T ");
    solve [reflexivity | vm_compute; discriminate].
Defined.


Lemma get_citations_of_without_limit_witness :
  (0 <= 0)%Z /\
  let seen :=
    get_citations_of None (stub_links ["7"; "8"]) str_scalar "1" "refs" 0 in
  List.length seen <= 1 /\
  (forall out,
     "1"%string <> EmptyString ->
     citations_out None (stub_links ["7"; "8"]) str_scalar "1" "refs" = Ok out ->
     seen = firstn 1 out).
Proof.
  split; [apply Z.le_refl|].
  exact (get_citations_of_without_limit None (stub_links ["7"; "8"]) str_scalar
           "1" "refs" 0 (Z.le_refl 0)).
Defined.

Lemma get_citations_of_within_limit_witness :
  (1 <= 2)%Z /\
  let seen :=
    get_citations_of None (stub_links ["7"; "8"; "7"; "9"]) str_scalar
      "1" "refs" 2 in
  NoDup seen /\
  (Z.of_nat (List.length seen) <= 2)%Z /\
  (forall out,
     "1"%string <> EmptyString ->
     citations_out None (stub_links ["7"; "8"; "7"; "9"]) str_scalar "1" "refs"
     = Ok out ->
     seen = firstn (Z.to_nat 2) (set_of_list out)).
Proof.
  assert (H : (1 <= 2)%Z) by discriminate.
  split; [exact H|].
  exact (get_citations_of_within_limit None (stub_links ["7"; "8"; "7"; "9"])
           str_scalar "1" "refs" 2 H).
Defined.

Lemma citations_flatten_witness :
  get_citations_of None
    (stub_elink (linksets_doc [[[JStr "7"; JStr "8"]; [JStr "7"]]; [[JStr "9"]]]))
    str_scalar "1" "refs" 3
  = firstn (Z.to_nat 3)
      (set_of_list
         (map str_scalar
            (concat (concat [[[JStr "7"; JStr "8"]; [JStr "7"]]; [[JStr "9"]]])))).
Proof.
  apply (citations_flatten None _ str_scalar "1" "refs" 3
           {| status_code := 200;
              content := JsonDoc (linksets_doc [[[JStr "7"; JStr "8"]; [JStr "7"]];
                                                [[JStr "9"]]]) |});
    solve [discriminate | reflexivity].
Defined.

Lemma citations_missing_linksets_witness :
  get_citations_of None (stub_elink (JObj [])) str_scalar "1" "refs" 20 = [].
Proof.
  apply (citations_missing_linksets None (stub_elink (JObj [])) str_scalar
           "1" "refs" 20 {| status_code := 200; content := JsonDoc (JObj []) |} []);
    reflexivity.
Defined.

Lemma nodes_carry_record_witness :
  let n := new_node None (stub_search ["1"]) 0 "flu" "1" in
  In n (fst (build_graph None (stub_search ["1"]) str_scalar insertion_order
               20 20 ["flu"])) /\
  node_filled None (stub_search ["1"]) (n_id n) n /\
  node_coloured (n_id n) n /\
  (n_shared n = true <-> n_color n = shared_color) /\
  n_title_full n <> EmptyString /\
  n_abstract n <> EmptyString.
Proof.
  cbv zeta.
  assert (H : In (new_node None (stub_search ["1"]) 0 "flu" "1")
                 (fst (build_graph None (stub_search ["1"]) str_scalar
                         insertion_order 20 20 ["flu"])))
    by (vm_compute; now left).
  split; [exact H|].
  exact (nodes_carry_record None (stub_search ["1"]) str_scalar insertion_order
           20 20 ["flu"] _ H).
Defined.

Lemma node_ids_are_discovered_witness :
  set_iteration insertion_order /\
  (In "1" (map n_id (fst (build_graph None (stub_search ["1"]) str_scalar
                            insertion_order 20 20 ["flu"]))) <->
   exists seed,
     In seed ["flu"] /\
     discovered None (stub_search ["1"]) str_scalar 20 20 seed "1").
Proof.
  split; [exact insertion_order_ok|].
  exact (node_ids_are_discovered None (stub_search ["1"]) str_scalar
           insertion_order 20 20 insertion_order_ok ["flu"] "1").
Defined.

Lemma first_seed_owns_node_witness :
  set_iteration insertion_order /\
  discovered None (stub_search ["1"]) str_scalar 20 20 "flu" "1" /\
  exists n,
    In n (fst (build_graph None (stub_search ["1"]) str_scalar insertion_order
                 20 20 ([] ++ "flu" :: ["cold"]))) /\
    n_id n = "1"%string /\
    n_seedGroup n = "flu"%string /\
    hd_error (n_seedGroups n) = Some "flu"%string /\
    (n_shared n = false ->
     n_color n = nth (List.length (@nil string) mod 8) palette EmptyString /\
     n_seedGroups n = ["flu"%string]).
Proof.
  assert (Hflu : discovered None (stub_search ["1"]) str_scalar 20 20 "flu" "1")
    by (vm_compute; now left).
  split; [exact insertion_order_ok|]. split; [exact Hflu|].
  exact (first_seed_owns_node None (stub_search ["1"]) str_scalar
           insertion_order 20 20 insertion_order_ok [] ["cold"] "flu" "1"
           (fun seed (H : In seed []) => False_ind _ H) Hflu).
Defined.

Lemma shared_iff_met_again_witness :
  set_iteration insertion_order /\
  discovered None (stub_search ["1"]) str_scalar 20 20 "flu" "1" /\
  exists n,
    In n (fst (build_graph None (stub_search ["1"]) str_scalar insertion_order
                 20 20 ([] ++ "flu" :: ["flu"]))) /\
    n_id n = "1"%string /\
    (n_shared n = true <->
     exists B, In B ["flu"%string] /\
               discovered None (stub_search ["1"]) str_scalar 20 20 B "1") /\
    (forall seed, In seed (n_seedGroups n) <->
                  seed = "flu"%string \/
                  (In seed ["flu"%string] /\
                   discovered None (stub_search ["1"]) str_scalar 20 20 seed "1")).
Proof.
  assert (Hflu : discovered None (stub_search ["1"]) str_scalar 20 20 "flu" "1")
    by (vm_compute; now left).
  split; [exact insertion_order_ok|]. split; [exact Hflu|].
  exact (shared_iff_met_again None (stub_search ["1"]) str_scalar
           insertion_order 20 20 insertion_order_ok [] ["flu"] "flu" "1"
           (fun seed (H : In seed []) => False_ind _ H) Hflu).
Defined.

Lemma links_are_seed_edges_witness :
  set_iteration insertion_order /\
  In link_1_7 (snd (build_graph None (stub_links ["7"]) str_scalar
                      insertion_order 20 20 ["1"])) /\
  exists seed,
    In seed ["1"] /\
    seed_edge None (stub_links ["7"]) str_scalar insertion_order 20 20
      seed (l_source link_1_7) (l_target link_1_7).
Proof.
  assert (H : In link_1_7 (snd (build_graph None (stub_links ["7"]) str_scalar
                                  insertion_order 20 20 ["1"])))
    by (vm_compute; now left).
  split; [exact insertion_order_ok|]. split; [exact H|].
  exact (links_are_seed_edges None (stub_links ["7"]) str_scalar insertion_order
           20 20 insertion_order_ok ["1"] link_1_7 H).
Defined.

Lemma seed_edges_are_links_witness :
  set_iteration insertion_order /\
  split_arrow (edge_key "1" "7") = ["1"; "7"] /\
  (In "1" (resolve_seed None (stub_links ["7"]) str_scalar 20 "1") /\
   In "7" (get_citations_of None (stub_links ["7"]) str_scalar "1" "refs" 20) /\
   In "7" (map n_id (fst (build_graph None (stub_links ["7"]) str_scalar
                            insertion_order 20 20 ["1"])))) /\
  exists l,
    In l (snd (build_graph None (stub_links ["7"]) str_scalar insertion_order
                 20 20 ["1"])) /\
    l_source l = "1"%string /\ l_target l = "7"%string.
Proof.
  assert (Hpair :
            In "1" (resolve_seed None (stub_links ["7"]) str_scalar 20 "1") /\
            In "7" (get_citations_of None (stub_links ["7"]) str_scalar
                      "1" "refs" 20) /\
            In "7" (map n_id (fst (build_graph None (stub_links ["7"])
                                     str_scalar insertion_order 20 20 ["1"]))))
    by (vm_compute; split; [now left | split; [now left | right; now left]]).
  split; [exact insertion_order_ok|]. split; [reflexivity|].
  split; [exact Hpair|].
  exact (seed_edges_are_links None (stub_links ["7"]) str_scalar insertion_order
           20 20 insertion_order_ok ["1"] "1" "1" "7"
           (or_introl eq_refl) eq_refl (or_intror Hpair)).
Defined.

Lemma links_semantic_witness :
  In link_1_7 (snd (build_graph None (stub_links ["7"]) str_scalar
                      insertion_order 20 20 ["1"])) /\
  exists src tgt,
    In src (fst (build_graph None (stub_links ["7"]) str_scalar insertion_order
                   20 20 ["1"])) /\
    n_id src = l_source link_1_7 /\
    In tgt (fst (build_graph None (stub_links ["7"]) str_scalar insertion_order
                   20 20 ["1"])) /\
    n_id tgt = l_target link_1_7 /\
    (l_semantic link_1_7 = true <->
     exists m, In m (n_mesh src) /\ In m (n_mesh tgt)) /\
    l_color link_1_7
    = if l_semantic link_1_7 then "#66bb6a"%string else "#cccccc"%string.
Proof.
  assert (H : In link_1_7 (snd (build_graph None (stub_links ["7"]) str_scalar
                                  insertion_order 20 20 ["1"])))
    by (vm_compute; now left).
  split; [exact H|].
  exact (links_semantic None (stub_links ["7"]) str_scalar insertion_order
           20 20 ["1"] link_1_7 H).
Defined.

Lemma graph_when_source_down_witness :
  set_iteration insertion_order /\
  source_down stub_down /\
  snd (build_graph None stub_down str_scalar insertion_order 20 20 ["12"; "flu"])
  = [] /\
  (forall d,
     In d (map n_id (fst (build_graph None stub_down str_scalar insertion_order
                            20 20 ["12"; "flu"]))) <->
     In d ["12"; "flu"] /\ isdigit d = true) /\
  (forall n,
     In n (fst (build_graph None stub_down str_scalar insertion_order 20 20
                  ["12"; "flu"])) ->
     n_title_full n = ("(Untitled article, PMID " ++ n_id n ++ ")")%string /\
     n_abstract n = "(No abstract available.)"%string /\
     n_journal n = EmptyString /\
     n_pubdate n = EmptyString /\
     n_mesh n = []).
Proof.
  assert (Hdown : source_down stub_down) by (intros url params; split; exact I).
  split; [exact insertion_order_ok|]. split; [exact Hdown|].
  exact (graph_when_source_down None stub_down str_scalar insertion_order 20 20
           insertion_order_ok Hdown ["12"; "flu"]).
Defined.
